(** * tusc server: start-up wiring and the upload listing page

    A shallow embedding of [internal/server.go]: the [Server] entry point
    (configuration, store composition, handler registration, listener) and
    the [homepage] handler that rebuilds the list of uploads from the
    [.info] sidecar files of the upload directory.

    Library calls whose code lives outside the repository (the operating
    system, [net/http], [html/template], [sort], the tusd packages) are
    either modelled by their documented behaviour or taken as oracles that
    the theorems quantify over.  [sort.Slice] is embedded from the
    standard library's code as well, for the statement that depends on
    what it does with elements that tie. *)

From Stdlib Require Import ZArith Lia Bool Ascii String List.
From stdpp Require Import base option list sorting strings gmap.

Local Open Scope string_scope.
Local Open Scope list_scope.

(** ** Go primitives used by the file *)

Module Go.

(** [len(s)] of a Go string: its number of bytes, as an [int]. *)
Definition len (s : string) : Z := Z.of_nat (String.length s).

Fixpoint drop_bytes (n : nat) (s : string) : string :=
  match n, s with
  | O, _ => s
  | S _, EmptyString => EmptyString
  | S n', String _ s' => drop_bytes n' s'
  end.

Fixpoint take_bytes (n : nat) (s : string) : string :=
  match n, s with
  | O, _ => EmptyString
  | S _, EmptyString => EmptyString
  | S n', String c s' => String c (take_bytes n' s')
  end.

(** [s[lo:]]; the run-time check [0 <= lo <= len(s)] fails with a panic,
    rendered here as [None]. *)
Definition slice_from (s : string) (lo : Z) : option string :=
  if decide (0 ≤ lo ≤ len s)%Z then Some (drop_bytes (Z.to_nat lo) s) else None.

(** [s[:hi]], with the same bounds check. *)
Definition slice_to (s : string) (hi : Z) : option string :=
  if decide (0 ≤ hi ≤ len s)%Z then Some (take_bytes (Z.to_nat hi) s) else None.

(** [a < b] on strings: lexicographic on the bytes. *)
Definition str_lt (a b : string) : bool := String.ltb a b.

(** [m[k]] on a [map[string]string]: the zero value when [k] is absent. *)
Definition map_index (m : gmap string string) (k : string) : string :=
  default "" (m !! k).

(** Two's-complement wrap-around of [int64] arithmetic. *)
Definition wrap64 (z : Z) : Z :=
  ((z + 2 ^ 63) mod 2 ^ 64 - 2 ^ 63)%Z.

Definition newline : string := String "010"%char "".
Definition dquote : string := String "034"%char "".

End Go.

(** ** Control flow: a state monad with early exits

    A computation either continues with a value ([Next]) or leaves the
    enclosing function for good ([Halt]): by [return], by [os.Exit], by a
    panic, or by blocking forever in a call that does not come back. *)

Inductive halt : Type :=
| Returned
| Exited (code : Z)
| Panicked (msg : string)
| Blocked.

Inductive outcome (S A : Type) : Type :=
| Next (a : A) (s : S)
| Halt (h : halt) (s : S).
Arguments Next {S A} a s.
Arguments Halt {S A} h s.

Definition M (S A : Type) : Type := S → outcome S A.

Definition ret {S A} (a : A) : M S A := λ s, Next a s.

Definition bind {S A B} (c : M S A) (k : A → M S B) : M S B :=
  λ s, match c s with
       | Next a s' => k a s'
       | Halt h s' => Halt h s'
       end.

Definition stop {S A} (h : halt) : M S A := λ s, Halt h s.
Definition modify {S} (f : S → S) : M S unit := λ s, Next () (f s).
Definition get {S} : M S S := λ s, Next s s.

(** Evaluating a Go expression that may panic. *)
Definition eval {S A} (what : string) (o : option A) : M S A :=
  match o with
  | Some a => ret a
  | None => stop (Panicked what)
  end.

Declare Scope go_scope.
Delimit Scope go_scope with go.
Notation "x <- c ;; k" := (bind c (λ x, k))
  (at level 100, c at next level, right associativity) : go_scope.
Notation "c ;;; k" := (bind c (λ _, k))
  (at level 100, right associativity) : go_scope.
Local Open Scope go_scope.

Definition final_state {S A} (o : outcome S A) : S :=
  match o with Next _ s | Halt _ s => s end.

(** ** Upload records *)

(** Modelled from the spec: [tusd.FileInfo] is declared in the tusd
    package; the fields are those of the spec's upload record ([id],
    [size], [offset], [metadata]), of which the listing reads [ID] and
    [MetaData]. *)
Record FileInfo : Type := mkFileInfo {
  ID : string;
  Size : Z;
  Offset : Z;
  MetaData : gmap string string;
}.

(** [infos[i].MetaData["filename"]] *)
Definition filename_of (info : FileInfo) : string :=
  Go.map_index (MetaData info) "filename".

(** The closure handed to [sort.Slice] in [homepage]. *)
Definition less_filename (a b : FileInfo) : bool :=
  Go.str_lt (filename_of a) (filename_of b).

(** ** [sort.Slice]

    The sorting routine belongs to Go's standard library, whose algorithm
    has changed between releases.  The statements about the order of the
    page rely only on its documented contract: the slice is rearranged
    (nothing added or lost) so that no element is [less] than one standing
    before it, provided [less] is a strict weak ordering.  Stability is
    explicitly not part of the contract.  What the routine does with
    elements that tie is read off its code, embedded below as
    [sort.Slice]. *)

Class StrictWeak {A : Type} (less : A → A → bool) : Prop := {
  less_asym : ∀ a b, less a b = true → less b a = false;
  less_ntrans : ∀ a b c, less b a = false → less c b = false → less c a = false;
}.

(** [a] may stand before [b]. *)
Definition in_order {A : Type} (less : A → A → bool) (a b : A) : Prop :=
  less b a = false.

(** [sort.Slice(x, less)], returning the rearranged slice. *)
Definition slice_sorter : Type := ∀ A : Type, (A → A → bool) → list A → list A.

Definition slice_contract (Slice : slice_sorter) : Prop :=
  (∀ A less (x : list A), Slice A less x ≡ₚ x) ∧
  (∀ A less (x : list A), StrictWeak less → Sorted (in_order less) (Slice A less x)).

(** A reference implementation that meets the contract: insertion sort,
    placing a new element after the elements it ties with. *)
Section Insertion.
Context {A : Type} (goes_before : A → A → bool).

Fixpoint place (a : A) (l : list A) : list A :=
  match l with
  | [] => [a]
  | b :: l' => if goes_before a b then a :: b :: l' else b :: place a l'
  end.

Definition insertion_sort (l : list A) : list A :=
  fold_left (λ acc a, place a acc) l [].
End Insertion.

Definition ties_kept : slice_sorter :=
  λ A less, insertion_sort less.

(** ** [sort.Slice] as the standard library implements it

    Since Go 1.19 [sort.Slice] runs the pattern-defeating quicksort of
    [sort/zsortfunc.go], embedded here function by function.  The slice
    is the state; [Less] and [Swap] are the two operations of [lessSwap],
    and an index outside the slice panics as it does in Go.

    A Go [for] loop becomes [loop]: the body either goes round [again]
    with new loop variables or [leave]s with a result.  The first
    argument bounds the number of rounds; a loop that has not ended by
    then is rendered as a call that does not come back. *)

Module sort.

Fixpoint loop {S V R : Type} (rounds : nat) (body : V → M S (V + R)) (v : V)
  : M S R :=
  match rounds with
  | O => stop Blocked
  | S n =>
      r <- body v ;;
      match r with
      | inl v' => loop n body v'
      | inr res => ret res
      end
  end.

Definition again {S V R : Type} (v : V) : M S (V + R) := ret (inl v).
Definition leave {S V R : Type} (res : R) : M S (V + R) := ret (inr res).

(** Enough rounds for a loop that walks a range of [n] indices. *)
Definition span (n : Z) : nat := Z.to_nat n + 2.

(** [bits.Len(x)]: the number of bits needed to write [x]. *)
Definition bits_Len (x : Z) : Z :=
  if (x <=? 0)%Z then 0%Z else (Z.log2 x + 1)%Z.

Definition nextPowerOfTwo (length : Z) : Z :=
  Z.shiftl 1 (bits_Len length).

Inductive sortedHint : Type :=
| unknownHint
| increasingHint
| decreasingHint.

Section Sort.

Context {A : Type}.
(** The closure given to [sort.Slice], as a comparison of two elements. *)
Variable less : A → A → bool.
(** [xorshift.Next], the step of the pseudo-random generator that
    [breakPatterns_func] draws from: a fixed function of the generator's
    state, which the statements quantify over. *)
Variable xorshift_Next : Z → Z.

Definition at_index (data : list A) (i : Z) : option A :=
  if (0 <=? i)%Z then data !! Z.to_nat i else None.

(** [data.Less(i, j)] *)
Definition Less (i j : Z) : M (list A) bool :=
  data <- get ;;
  x <- eval "index out of range" (at_index data i) ;;
  y <- eval "index out of range" (at_index data j) ;;
  ret (less x y).

(** [data.Swap(i, j)] *)
Definition Swap (i j : Z) : M (list A) unit :=
  data <- get ;;
  x <- eval "index out of range" (at_index data i) ;;
  y <- eval "index out of range" (at_index data j) ;;
  modify (λ _, <[Z.to_nat j := x]> (<[Z.to_nat i := y]> data)).

Definition insertionSort_func (a b : Z) : M (list A) unit :=
  loop (span (b - a)) (λ i,
    if (i <? b)%Z then
      loop (span (i - a)) (λ j,
        if (a <? j)%Z then
          c <- Less j (j - 1) ;;
          if c then (Swap j (j - 1) ;;; again (j - 1)%Z) else leave ()
        else leave ()) i ;;;
      again (i + 1)%Z
    else leave ()) (a + 1)%Z.

Definition siftDown_func (lo hi first : Z) : M (list A) unit :=
  loop (span hi) (λ root,
    let child := (2 * root + 1)%Z in
    if (hi <=? child)%Z then leave ()
    else
      child <- (if (child + 1 <? hi)%Z then
                  c <- Less (first + child) (first + child + 1) ;;
                  ret (if c then child + 1 else child)%Z
                else ret child) ;;
      c <- Less (first + root) (first + child) ;;
      if negb c then leave ()
      else (Swap (first + root) (first + child) ;;; again child)) lo.

Definition heapSort_func (a b : Z) : M (list A) unit :=
  let first := a in
  let lo := 0%Z in
  let hi := (b - a)%Z in
  loop (span hi) (λ i,
    if (0 <=? i)%Z then (siftDown_func i hi first ;;; again (i - 1)%Z)
    else leave ()) ((hi - 1) `quot` 2)%Z ;;;
  loop (span hi) (λ i,
    if (0 <=? i)%Z then
      (Swap first (first + i) ;;; siftDown_func lo i first ;;; again (i - 1)%Z)
    else leave ()) (hi - 1)%Z.

Definition breakPatterns_func (a b : Z) : M (list A) unit :=
  let length := (b - a)%Z in
  if (8 <=? length)%Z then
    let modulus := nextPowerOfTwo length in
    let idx := (a + (length `quot` 4) * 2 - 1)%Z in
    loop 4 (λ '(i, random),
      if (i <? 3)%Z then
        let random := xorshift_Next random in
        let other := Z.land random (modulus - 1) in
        let other := if (length <=? other)%Z then (other - length)%Z else other in
        (Swap (idx - 1 + i) (a + other) ;;; again (i + 1, random)%Z)
      else leave ()) (0%Z, length)
  else ret ().

(** [swaps] is the counter the Go code passes by pointer. *)
Definition order2_func (a b swaps : Z) : M (list A) (Z * Z * Z) :=
  c <- Less b a ;;
  if c then ret (b, a, swaps + 1)%Z else ret (a, b, swaps).

Definition median_func (a b c swaps : Z) : M (list A) (Z * Z) :=
  r <- order2_func a b swaps ;; let '(a, b, swaps) := r in
  r <- order2_func b c swaps ;; let '(b, c, swaps) := r in
  r <- order2_func a b swaps ;; let '(a, b, swaps) := r in
  ret (b, swaps).

Definition medianAdjacent_func (a swaps : Z) : M (list A) (Z * Z) :=
  median_func (a - 1) a (a + 1) swaps.

Definition choosePivot_func (a b : Z) : M (list A) (Z * sortedHint) :=
  let shortestNinther := 50%Z in
  let maxSwaps := (4 * 3)%Z in
  let l := (b - a)%Z in
  let swaps := 0%Z in
  let i := (a + l `quot` 4 * 1)%Z in
  let j := (a + l `quot` 4 * 2)%Z in
  let k := (a + l `quot` 4 * 3)%Z in
  r <- (if (8 <=? l)%Z then
          r <- (if (shortestNinther <=? l)%Z then
                  r <- medianAdjacent_func i swaps ;; let '(i, swaps) := r in
                  r <- medianAdjacent_func j swaps ;; let '(j, swaps) := r in
                  r <- medianAdjacent_func k swaps ;; let '(k, swaps) := r in
                  ret (i, j, k, swaps)
                else ret (i, j, k, swaps)) ;;
          let '(i, j, k, swaps) := r in
          median_func i j k swaps
        else ret (j, swaps)) ;;
  let '(j, swaps) := r in
  ret (j, if (swaps =? 0)%Z then increasingHint
          else if (swaps =? maxSwaps)%Z then decreasingHint
          else unknownHint).

Definition reverseRange_func (a b : Z) : M (list A) unit :=
  loop (span (b - a)) (λ '(i, j),
    if (i <? j)%Z then (Swap i j ;;; again (i + 1, j - 1)%Z)
    else leave ()) (a, b - 1)%Z.

Definition partialInsertionSort_func (a b : Z) : M (list A) bool :=
  let maxSteps := 5%Z in
  let shortestShifting := 50%Z in
  loop 6 (λ '(i, j),
    if (j <? maxSteps)%Z then
      i <- loop (span (b - a)) (λ i,
             if (i <? b)%Z then
               c <- Less i (i - 1) ;;
               if negb c then again (i + 1)%Z else leave i
             else leave i) i ;;
      if (i =? b)%Z then leave true
      else if (b - a <? shortestShifting)%Z then leave false
      else
        Swap i (i - 1) ;;;
        (if (2 <=? i - a)%Z then
           loop (span b) (λ j,
             if (1 <=? j)%Z then
               c <- Less j (j - 1) ;;
               if negb c then leave ()
               else (Swap j (j - 1) ;;; again (j - 1)%Z)
             else leave ()) (i - 1)%Z
         else ret ()) ;;;
        (if (2 <=? b - i)%Z then
           loop (span b) (λ j,
             if (j <? b)%Z then
               c <- Less j (j - 1) ;;
               if negb c then leave ()
               else (Swap j (j - 1) ;;; again (j + 1)%Z)
             else leave ()) (i + 1)%Z
         else ret ()) ;;;
        again (i, j + 1)%Z
    else leave false) (a + 1, 0)%Z.

Definition partitionEqual_func (a b pivot : Z) : M (list A) Z :=
  Swap a pivot ;;;
  loop (span (b - a)) (λ '(i, j),
    i <- loop (span (b - a)) (λ i,
           if (i <=? j)%Z then
             c <- Less a i ;;
             if negb c then again (i + 1)%Z else leave i
           else leave i) i ;;
    j <- loop (span (b - a)) (λ j,
           if (i <=? j)%Z then
             c <- Less a j ;;
             if c then again (j - 1)%Z else leave j
           else leave j) j ;;
    if (j <? i)%Z then leave i
    else (Swap i j ;;; again (i + 1, j - 1)%Z)) (a + 1, b - 1)%Z.

Definition partition_func (a b pivot : Z) : M (list A) (Z * bool) :=
  let up (i j : Z) : M (list A) Z :=
    loop (span (b - a)) (λ i,
      if (i <=? j)%Z then
        c <- Less i a ;;
        if c then again (i + 1)%Z else leave i
      else leave i) i in
  let down (i j : Z) : M (list A) Z :=
    loop (span (b - a)) (λ j,
      if (i <=? j)%Z then
        c <- Less j a ;;
        if negb c then again (j - 1)%Z else leave j
      else leave j) j in
  Swap a pivot ;;;
  i <- up (a + 1)%Z (b - 1)%Z ;;
  j <- down i (b - 1)%Z ;;
  if (j <? i)%Z then
    Swap j a ;;; ret (j, true)
  else
    Swap i j ;;;
    r <- loop (span (b - a)) (λ '(i, j),
           i <- up i j ;;
           j <- down i j ;;
           if (j <? i)%Z then leave (i, j)
           else (Swap i j ;;; again (i + 1, j - 1)%Z)) (i + 1, j - 1)%Z ;;
    let '(i, j) := r in
    Swap j a ;;; ret (j, false).

(** The outer [for] loop of [pdqsort_func] and its recursive call share
    one bound on the number of rounds: every round and every call works
    on a shorter range. *)
Fixpoint pdqsort_func (rounds : nat) (a b limit : Z)
    (wasBalanced wasPartitioned : bool) : M (list A) unit :=
  match rounds with
  | O => stop Blocked
  | S n =>
    let maxInsertion := 12%Z in
    let length := (b - a)%Z in
    if (length <=? maxInsertion)%Z then insertionSort_func a b
    else if (limit =? 0)%Z then heapSort_func a b
    else
      limit <- (if negb wasBalanced
                then (breakPatterns_func a b ;;; ret (limit - 1)%Z)
                else ret limit) ;;
      r <- choosePivot_func a b ;;
      let '(pivot, hint) := r in
      r <- (match hint with
            | decreasingHint =>
                reverseRange_func a b ;;;
                ret ((b - 1) - (pivot - a), increasingHint)%Z
            | _ => ret (pivot, hint)
            end) ;;
      let '(pivot, hint) := r in
      done <- (match hint with
               | increasingHint =>
                   if wasBalanced && wasPartitioned
                   then partialInsertionSort_func a b
                   else ret false
               | _ => ret false
               end) ;;
      if (done : bool) then ret ()
      else
        dup <- (if (0 <? a)%Z
                then (c <- Less (a - 1) pivot ;; ret (negb c))
                else ret false) ;;
        if (dup : bool) then
          mid <- partitionEqual_func a b pivot ;;
          pdqsort_func n mid b limit wasBalanced wasPartitioned
        else
          r <- partition_func a b pivot ;;
          let '(mid, alreadyPartitioned) := r in
          let leftLen := (mid - a)%Z in
          let rightLen := (b - mid)%Z in
          let balanceThreshold := (length `quot` 8)%Z in
          if (leftLen <? rightLen)%Z then
            pdqsort_func n a mid limit true true ;;;
            pdqsort_func n (mid + 1)%Z b limit
                         (balanceThreshold <=? leftLen)%Z alreadyPartitioned
          else
            pdqsort_func n (mid + 1)%Z b limit true true ;;;
            pdqsort_func n a mid limit
                         (balanceThreshold <=? rightLen)%Z alreadyPartitioned
  end.

(** The body of [sort.Slice(x, less)]. *)
Definition Slice_on (x : list A) : outcome (list A) unit :=
  let length := Z.of_nat (List.length x) in
  let limit := bits_Len length in
  pdqsort_func (span length) 0 length limit true true x.

End Sort.

(** [sort.Slice], returning the slice as the call leaves it. *)
Definition Slice (xorshift_Next : Z → Z) : slice_sorter :=
  λ A less x, final_state (Slice_on less xorshift_Next x).

(** *** Go 1.18 and earlier

    Up to Go 1.18 [sort.Slice] ran the quicksort of
    [sort/zfuncversion.go], which shares [insertionSort_func] and
    [heapSort_func] with its successor. *)

Module go118.

(** [depth] counts the halvings that take [n] to 0. *)
Fixpoint maxDepth_loop (rounds : nat) (i depth : Z) : Z :=
  match rounds with
  | O => depth
  | S n => if (0 <? i)%Z then maxDepth_loop n (Z.shiftr i 1) (depth + 1)%Z else depth
  end.

Definition maxDepth (n : Z) : Z := (maxDepth_loop (span n) n 0 * 2)%Z.

Section Sort.

Context {A : Type}.
Variable less : A → A → bool.

Definition medianOfThree_func (m1 m0 m2 : Z) : M (list A) unit :=
  c <- Less less m1 m0 ;;
  (if c then Swap m1 m0 else ret ()) ;;;
  c <- Less less m2 m1 ;;
  if c then
    Swap m2 m1 ;;;
    c <- Less less m1 m0 ;;
    if c then Swap m1 m0 else ret ()
  else ret ().

Definition doPivot_func (lo hi : Z) : M (list A) (Z * Z) :=
  let m := Z.shiftr (lo + hi) 1 in
  (if (40 <? hi - lo)%Z then
     let s := ((hi - lo) `quot` 8)%Z in
     medianOfThree_func lo (lo + s) (lo + 2 * s) ;;;
     medianOfThree_func m (m - s) (m + s) ;;;
     medianOfThree_func (hi - 1) (hi - 1 - s) (hi - 1 - 2 * s)
   else ret ()) ;;;
  medianOfThree_func lo m (hi - 1) ;;;
  let pivot := lo in
  a <- loop (span (hi - lo)) (λ a,
         if (a <? hi - 1)%Z then
           x <- Less less a pivot ;;
           if x then again (a + 1)%Z else leave a
         else leave a) (lo + 1)%Z ;;
  r <- loop (span (hi - lo)) (λ '(b, c),
         b <- loop (span (hi - lo)) (λ b,
                if (b <? c)%Z then
                  x <- Less less pivot b ;;
                  if negb x then again (b + 1)%Z else leave b
                else leave b) b ;;
         c <- loop (span (hi - lo)) (λ c,
                if (b <? c)%Z then
                  x <- Less less pivot (c - 1) ;;
                  if x then again (c - 1)%Z else leave c
                else leave c) c ;;
         if (c <=? b)%Z then leave (b, c)
         else (Swap b (c - 1) ;;; again (b + 1, c - 1)%Z)) (a, hi - 1)%Z ;;
  let '(b, c) := r in
  let protect := (hi - c <? 5)%Z in
  r <- (if negb protect && (hi - c <? (hi - lo) `quot` 4)%Z then
          let dups := 0%Z in
          r <- (x <- Less less pivot (hi - 1) ;;
                if negb x then (Swap c (hi - 1) ;;; ret (c + 1, dups + 1)%Z)
                else ret (c, dups)) ;;
          let '(c, dups) := r in
          r <- (x <- Less less (b - 1) pivot ;;
                if negb x then ret (b - 1, dups + 1)%Z else ret (b, dups)) ;;
          let '(b, dups) := r in
          r <- (x <- Less less m pivot ;;
                if negb x then (Swap m (b - 1) ;;; ret (b - 1, dups + 1)%Z)
                else ret (b, dups)) ;;
          let '(b, dups) := r in
          ret (b, c, (1 <? dups)%Z)
        else ret (b, c, protect)) ;;
  let '(b, c, protect) := r in
  r <- (if (protect : bool) then
          loop (span (hi - lo)) (λ '(a, b),
            b <- loop (span (hi - lo)) (λ b,
                   if (a <? b)%Z then
                     x <- Less less (b - 1) pivot ;;
                     if negb x then again (b - 1)%Z else leave b
                   else leave b) b ;;
            a <- loop (span (hi - lo)) (λ a,
                   if (a <? b)%Z then
                     x <- Less less a pivot ;;
                     if x then again (a + 1)%Z else leave a
                   else leave a) a ;;
            if (b <=? a)%Z then leave (a, b)
            else (Swap a (b - 1) ;;; again (a + 1, b - 1)%Z)) (a, b)
        else ret (a, b)) ;;
  let '(a, b) := r in
  Swap pivot (b - 1) ;;;
  ret (b - 1, c)%Z.

Fixpoint quickSort_func (rounds : nat) (a b maxDepth : Z) : M (list A) unit :=
  match rounds with
  | O => stop Blocked
  | S n =>
    if (12 <? b - a)%Z then
      if (maxDepth =? 0)%Z then heapSort_func less a b
      else
        let maxDepth := (maxDepth - 1)%Z in
        r <- doPivot_func a b ;;
        let '(mlo, mhi) := r in
        if (mlo - a <? b - mhi)%Z then
          quickSort_func n a mlo maxDepth ;;; quickSort_func n mhi b maxDepth
        else
          quickSort_func n mhi b maxDepth ;;; quickSort_func n a mlo maxDepth
    else if (1 <? b - a)%Z then
      loop (span (b - a)) (λ i,
        if (i <? b)%Z then
          x <- Less less i (i - 6) ;;
          (if x then Swap i (i - 6) else ret ()) ;;;
          again (i + 1)%Z
        else leave ()) (a + 6)%Z ;;;
      insertionSort_func less a b
    else ret ()
  end.

Definition Slice_on (x : list A) : outcome (list A) unit :=
  let length := Z.of_nat (List.length x) in
  quickSort_func (span length) 0 length (maxDepth length) x.

End Sort.

Definition Slice : slice_sorter :=
  λ A less x, final_state (Slice_on less x).

End go118.

End sort.

(** ** The HTTP response under construction *)

Record ResponseWriter : Type := mkResponseWriter {
  wroteHeader : option Z;
  body : string;
}.

(** What one request has done so far: the response, the identifiers
    [store.GetInfo] was called with (in call order), and the records the
    template was executed on, if it was. *)
Record request : Type := mkRequest {
  writer : ResponseWriter;
  getinfo_calls : list string;
  listed : option (list FileInfo);
}.

Definition new_request : request :=
  {| writer := {| wroteHeader := None; body := "" |};
     getinfo_calls := []; listed := None |}.

Definition on_writer (f : ResponseWriter → ResponseWriter) : M request unit :=
  modify (λ r, {| writer := f (writer r); getinfo_calls := getinfo_calls r;
                  listed := listed r |}).

(** [w.WriteHeader(code)]: only the first status sticks. *)
Definition WriteHeader (code : Z) : M request unit :=
  on_writer (λ w,
    match wroteHeader w with
    | Some _ => w
    | None => {| wroteHeader := Some code; body := body w |}
    end).

(** [w.Write(data)]: sends status 200 first if none was sent. *)
Definition Write (data : string) : M request unit :=
  on_writer (λ w,
    {| wroteHeader := Some (default 200%Z (wroteHeader w));
       body := body w +:+ data |}).

(** [http.Error(w, error, code)] *)
Definition http_Error (error : string) (code : Z) : M request unit :=
  WriteHeader code ;;; Write (error +:+ Go.newline).

(** What the client receives.  A handler that panics is recovered by
    [net/http], which drops the connection without a response. *)
Inductive response : Type :=
| Response (status : Z) (content : string)
| Aborted.

Definition respond {A} (o : outcome request A) : response :=
  match o with
  | Next _ r | Halt Returned r =>
      Response (default 200%Z (wroteHeader (writer r))) (body (writer r))
  | Halt _ _ => Aborted
  end.

(** ** The listing template *)

Definition listing_prefix : string :=
  String.concat Go.newline
    [ "<html><head><title>File Listing</title><style>";
      "* {"; "  font-family: monospace;"; "  font-size: 18px;";
      "  box-sizing: border-box;"; "}"; "";
      "a {"; "  text-decoration: none;"; "}"; "";
      "a:hover {"; "  text-decoration: underline;"; "}"; "";
      "a:visited {"; "  color: blue;"; "}"; "";
      "ul {"; "  list-style-type: none;"; "  margin: 0;"; "  padding: 0;"; "}"; "";
      "li {"; "  margin: 5px 10px;"; "  padding: 0;"; "}";
      "</style></head><body><ul>"; "" ].

Definition listing_suffix : string :=
  String.concat Go.newline [ ""; "  </ul>"; "  </body>"; "</html>" ].

Definition link_base : string := "http://127.0.0.1:1080/files/".

Section Homepage.

(** The sorting routine in use. *)
Variable sort_Slice : slice_sorter.
(** [ioutil.ReadDir(store.Path)]: the entry names in scan order, or an
    error. *)
Variable ReadDir : option (list string).
(** [store.GetInfo(id)]: the decoded sidecar, or an error. *)
Variable GetInfo : string → option FileInfo.
(** The escaping [html/template] applies to a value inside a quoted URL
    attribute and inside element text. *)
Variables escape_href escape_text : string → string.

Definition ext : string := ".info".

(** One [<li>] of the [range] block. *)
Definition listing_item (info : FileInfo) : string :=
  "<li><a href=" +:+ Go.dquote +:+ link_base +:+ escape_href (ID info)
    +:+ Go.dquote +:+ ">" +:+ escape_text (filename_of info) +:+ "</a></li>".

Definition listing_page (infos : list FileInfo) : string :=
  listing_prefix +:+ String.concat "" (listing_item <$> infos) +:+ listing_suffix.

(** [t.ExecuteTemplate(w, "listing", infos)].  The writes into the
    response succeed and the data needs no method call or field that could
    fail, so the error it returns is [nil]. *)
Definition ExecuteTemplate (infos : list FileInfo) : M request (option string) :=
  modify (λ r, {| writer := writer r; getinfo_calls := getinfo_calls r;
                  listed := Some infos |}) ;;;
  Write (listing_page infos) ;;;
  ret None.

Definition call_GetInfo (id : string) : M request (option FileInfo) :=
  λ r, Next (GetInfo id)
            {| writer := writer r; getinfo_calls := getinfo_calls r ++ [id];
               listed := listed r |}.

(** The body of the [for _, f := range fileInfos] loop.  The first
    [eval] is the argument [filename[lenOfID:]] of the diagnostic
    [fmt.Println], which is computed before the guard [lenOfID > 0]. *)
Definition scan_entry (filename : string) (infos : list FileInfo)
  : M request (list FileInfo) :=
  let lenOfID := (Go.len filename - Go.len ext)%Z in
  _ <- eval "slice bounds out of range" (Go.slice_from filename lenOfID) ;;
  if (0 <? lenOfID)%Z then
    tail <- eval "slice bounds out of range" (Go.slice_from filename lenOfID) ;;
    if String.eqb tail ext then
      id <- eval "slice bounds out of range" (Go.slice_to filename lenOfID) ;;
      got <- call_GetInfo id ;;
      match got with
      | None => http_Error "" 500 ;;; stop Returned
      | Some info => ret (infos ++ [info])%list
      end
    else ret infos
  else ret infos.

Fixpoint scan (fileInfos : list string) (infos : list FileInfo)
  : M request (list FileInfo) :=
  match fileInfos with
  | [] => ret infos
  | f :: rest => infos' <- scan_entry f infos ;; scan rest infos'
  end.

(** The handler returned by [homepage(store)]. *)
Definition homepage : M request unit :=
  match ReadDir with
  | None => http_Error "" 500 ;;; stop Returned
  | Some fileInfos =>
      infos <- scan fileInfos [] ;;
      let infos := sort_Slice FileInfo less_filename infos in
      err <- ExecuteTemplate infos ;;
      match err with
      | Some _ => http_Error "" 500 ;;; stop Returned
      | None => ret ()
      end
  end.

(** Serving one [GET /]. *)
Definition serve_listing : response := respond (homepage new_request).

End Homepage.

(** ** [Server]: configuration, stores and handlers *)

Record ServerConf : Type := mkServerConf {
  httpHost : string;
  httpPort : string;
  httpSock : string;
  maxSize : Z;
  uploadDir : string;
  storeSize : Z;
  listingEndpoint : string;
  uploadEndpoint : string;
  timeout : Z;
  isBehindProxy : bool;
}.

(** The values [docopt] and [util.GetInt64] deliver for the options of
    [serverUsage]; the two sizes and the timeout are [int64]s. *)
Record cmdline : Type := mkCmdline {
  opt_host : string;
  opt_port : string;
  opt_unix_sock : string;
  opt_max_size : Z;
  opt_dir : string;
  opt_store_size : Z;
  opt_base_path : string;
  opt_timeout : Z;
  opt_behind_proxy : bool;
}.

(** Modelled from the spec: the store implementations and the composer are
    declared in the tusd packages.  A store is the file store or the quota
    decorator around an inner data store and a terminate-capable store;
    the composer holds at most one implementation per capability, of which
    this file touches the core and the terminater. *)
#[warnings="-register-all"] Inductive DataStore : Type :=
| FileStore (Path : string)
| LimitedStore (StoreSize : Z) (core terminater : option DataStore).

Record StoreComposer : Type := mkStoreComposer {
  Core : option DataStore;
  Terminater : option DataStore;
}.

Definition NewStoreComposer : StoreComposer :=
  {| Core := None; Terminater := None |}.

(** [store.UseIn(composer)], for both store types. *)
Definition UseIn (store : DataStore) (c : StoreComposer) : StoreComposer :=
  {| Core := Some store; Terminater := Some store |}.

Record Config : Type := mkConfig {
  MaxSize : Z;
  BasePath : string;
  RespectForwardedHeaders : bool;
  StoreComposer_of : StoreComposer;
  NotifyCompleteUploads : bool;
  NotifyTerminatedUploads : bool;
  NotifyUploadProgress : bool;
  NotifyCreatedUploads : bool;
}.

Inductive Handler : Type :=
| TusHandler (config : Config)
| HomepageHandler (store : DataStore)
| StripPrefix (prefix : string) (h : Handler).

Inductive Listener : Type :=
| UnixListener (path : string) (readTimeout writeTimeout : Z)
| TCPListener (address : string) (readTimeout writeTimeout : Z).

(** A log call, kept as format and arguments ([FloatMiB n] stands for
    [float64(n)/1024/1024]). *)
Inductive logarg : Type :=
| Str (s : string)
| FloatMiB (bytes : Z).

Record logline : Type := mkLogline {
  format : string;
  args : list logarg;
}.

(** The process as far as start-up shapes it. *)
Record process : Type := mkProcess {
  stdout : list logline;
  stderr : list logline;
  composer : StoreComposer;
  tus_config : option Config;
  mux : list (string * Handler);
  listener : option Listener;
  serving : bool;
}.

Definition boot : process :=
  {| stdout := []; stderr := []; composer := NewStoreComposer; tus_config := None;
     mux := []; listener := None; serving := false |}.

(** What the surroundings answer; for a call that can fail, [None] is
    success and [Some e] the error. *)
Record world : Type := mkWorld {
  os_MkdirAll : string → Z → option string;
  (** [composer.Capabilities()], the summary printed at start-up. *)
  tusd_Capabilities : StoreComposer → string;
  tusd_NewHandler : Config → option string;
  template_Parse : option string;
  util_NewUnixListener : string → Z → Z → option string;
  util_NewListener : string → Z → Z → option string;
  (** [http.Serve] keeps serving ([None]) or comes back with an error. *)
  http_Serve : Listener → option string;
}.

Section Startup.

Variable W : world.

Definition stdout_Printf (fmt : string) (a : list logarg) : M process unit :=
  modify (λ p,
    {| stdout := stdout p ++ [mkLogline fmt a]; stderr := stderr p;
       composer := composer p; tus_config := tus_config p; mux := mux p;
       listener := listener p; serving := serving p |}).

(** [stderr.Fatalf]: print, then [os.Exit(1)]. *)
Definition stderr_Fatalf {A} (fmt : string) (a : list logarg) : M process A :=
  modify (λ p,
    {| stdout := stdout p; stderr := stderr p ++ [mkLogline fmt a];
       composer := composer p; tus_config := tus_config p; mux := mux p;
       listener := listener p; serving := serving p |}) ;;;
  stop (Exited 1).

Definition use_store (store : DataStore) : M process unit :=
  modify (λ p,
    {| stdout := stdout p; stderr := stderr p;
       composer := UseIn store (composer p); tus_config := tus_config p;
       mux := mux p; listener := listener p; serving := serving p |}).

(** [tusd.NewHandler(config)] *)
Definition NewHandler (config : Config) : M process (Handler * option string) :=
  λ p, Next (TusHandler config, tusd_NewHandler W config)
    {| stdout := stdout p; stderr := stderr p; composer := composer p;
       tus_config := Some config; mux := mux p; listener := listener p;
       serving := serving p |}.

(** [http.Handle(pattern, handler)] on the default mux, which panics on
    an empty pattern and on a pattern registered before. *)
Definition http_Handle (pattern : string) (h : Handler) : M process unit :=
  λ p,
    if decide (pattern = "") then Halt (Panicked "http: invalid pattern") p
    else if decide (pattern ∈ (mux p).*1)
    then Halt (Panicked ("http: multiple registrations for " +:+ pattern)) p
    else Next ()
      {| stdout := stdout p; stderr := stderr p; composer := composer p;
         tus_config := tus_config p; mux := mux p ++ [(pattern, h)];
         listener := listener p; serving := serving p |}.

(** The part of [homepage(store)] that runs at start-up: parsing the
    template. *)
Definition homepage_setup (store : DataStore) : M process Handler :=
  match template_Parse W with
  | Some err => stderr_Fatalf "Unable to parse template: %s" [Str err]
  | None => ret (HomepageHandler store)
  end.

Definition set_listener (l : Listener) : M process unit :=
  modify (λ p,
    {| stdout := stdout p; stderr := stderr p; composer := composer p;
       tus_config := tus_config p; mux := mux p; listener := Some l;
       serving := serving p |}).

(** [http.Serve(listener, nil)] *)
Definition Serve (l : Listener) : M process (option string) :=
  λ p,
    let p' := {| stdout := stdout p; stderr := stderr p; composer := composer p;
                 tus_config := tus_config p; mux := mux p; listener := listener p;
                 serving := true |} in
    match http_Serve W l with
    | None => Halt Blocked p'
    | Some err =>
        Next (Some err)
          {| stdout := stdout p; stderr := stderr p; composer := composer p;
             tus_config := tus_config p; mux := mux p; listener := listener p;
             serving := false |}
    end.

(** [os.FileMode(0774)], an octal literal. *)
Definition mode_0774 : Z := 7 * 64 + 7 * 8 + 4.

Definition read_conf (a : cmdline) : ServerConf :=
  {| httpHost := opt_host a; httpPort := opt_port a; httpSock := opt_unix_sock a;
     maxSize := opt_max_size a; uploadDir := opt_dir a;
     storeSize := opt_store_size a; listingEndpoint := "/";
     uploadEndpoint := opt_base_path a; timeout := opt_timeout a;
     isBehindProxy := opt_behind_proxy a |}.

Definition with_maxSize (conf : ServerConf) (n : Z) : ServerConf :=
  {| httpHost := httpHost conf; httpPort := httpPort conf; httpSock := httpSock conf;
     maxSize := n; uploadDir := uploadDir conf; storeSize := storeSize conf;
     listingEndpoint := listingEndpoint conf; uploadEndpoint := uploadEndpoint conf;
     timeout := timeout conf; isBehindProxy := isBehindProxy conf |}.

(** The block guarded by [conf.storeSize > 0]. *)
Definition limit_store (conf : ServerConf) : M process ServerConf :=
  if (0 <? storeSize conf)%Z then
    p <- get ;;
    use_store (LimitedStore (storeSize conf) (Core (composer p))
                            (Terminater (composer p))) ;;;
    stdout_Printf ("Using %.2fMB as storage size." +:+ Go.newline)
                  [FloatMiB (storeSize conf)] ;;;
    if (storeSize conf <? maxSize conf)%Z || (maxSize conf =? 0)%Z
    then ret (with_maxSize conf (storeSize conf))
    else ret conf
  else ret conf.

Definition listen_address (conf : ServerConf) : string :=
  if decide (httpSock conf ≠ "") then httpSock conf
  else httpHost conf +:+ ":" +:+ httpPort conf.

Definition tus_Config (conf : ServerConf) (c : StoreComposer) : Config :=
  {| MaxSize := maxSize conf; BasePath := uploadEndpoint conf;
     RespectForwardedHeaders := isBehindProxy conf; StoreComposer_of := c;
     NotifyCompleteUploads := false; NotifyTerminatedUploads := false;
     NotifyUploadProgress := false; NotifyCreatedUploads := false |}.

Definition make_listener (conf : ServerConf) (address : string)
  : M process Listener :=
  let timeoutDuration := Go.wrap64 (timeout conf * 1000000) in
  if decide (httpSock conf ≠ "") then
    match util_NewUnixListener W address timeoutDuration timeoutDuration with
    | Some err => stderr_Fatalf "Unable to create listener: %s" [Str err]
    | None =>
        let l := UnixListener address timeoutDuration timeoutDuration in
        set_listener l ;;;
        stdout_Printf "You can now upload files to: http://%s%s"
                      [Str address; Str (uploadEndpoint conf)] ;;;
        ret l
    end
  else
    match util_NewListener W address timeoutDuration timeoutDuration with
    | Some err => stderr_Fatalf "Unable to create listener: %s" [Str err]
    | None =>
        let l := TCPListener address timeoutDuration timeoutDuration in
        set_listener l ;;; ret l
    end.

(** The two [http.Handle] calls; [homepage(store)] is evaluated before the
    second registration. *)
Definition register_handlers (conf : ServerConf) (store : DataStore)
    (handler : Handler) : M process unit :=
  http_Handle (uploadEndpoint conf) (StripPrefix (uploadEndpoint conf) handler) ;;;
  if decide (listingEndpoint conf ≠ uploadEndpoint conf) then
    h <- homepage_setup store ;;
    http_Handle (listingEndpoint conf) (StripPrefix (listingEndpoint conf) h)
  else ret ().

Definition listen_and_serve (conf : ServerConf) (address : string)
  : M process unit :=
  l <- make_listener conf address ;;
  err <- Serve l ;;
  match err with
  | Some e => stderr_Fatalf "Unable to serve: %s" [Str e]
  | None => ret ()
  end.

Definition Server (a : cmdline) : M process unit :=
  let conf := read_conf a in
  stdout_Printf ("Using '%s' as directory storage." +:+ Go.newline)
                [Str (uploadDir conf)] ;;;
  match os_MkdirAll W (uploadDir conf) mode_0774 with
  | Some err => stderr_Fatalf "Unable to ensure directory exists: %s" [Str err]
  | None =>
    let store := FileStore (uploadDir conf) in
    use_store store ;;;
    conf <- limit_store conf ;;
    stdout_Printf ("Using %.2fMB as maximum size." +:+ Go.newline)
                  [FloatMiB (maxSize conf)] ;;;
    let address := listen_address conf in
    stdout_Printf
      (if decide (httpSock conf ≠ "")
       then "Using %s as socket to listen." +:+ Go.newline
       else "Using %s as address to listen." +:+ Go.newline) [Str address] ;;;
    stdout_Printf ("Using %s as the base path." +:+ Go.newline)
                  [Str (uploadEndpoint conf)] ;;;
    p <- get ;;
    stdout_Printf (tusd_Capabilities W (composer p)) [] ;;;
    made <- NewHandler (tus_Config conf (composer p)) ;;
    match made.2 with
    | Some err => stderr_Fatalf "Unable to create handler: %s" [Str err]
    | None =>
      register_handlers conf store made.1 ;;;
      listen_and_serve conf address
    end
  end.

Definition run (a : cmdline) : outcome process unit := Server a boot.

End Startup.

(** ** Vocabulary of the statements *)

(** The sidecar naming convention: a non-empty identifier followed by the
    fixed suffix. *)
Definition sidecar_of (id : string) : string := id +:+ ext.

Definition is_sidecar (name : string) : Prop :=
  ∃ id, id ≠ "" ∧ name = sidecar_of id.

(** [needle] occurs in [hay]. *)
Definition contains (needle hay : string) : Prop :=
  ∃ pre post, hay = pre +:+ needle +:+ post.

(** Ascending order of the [filename] values, byte by byte. *)
Definition by_filename (a b : FileInfo) : Prop :=
  (filename_of a ≤ filename_of b)%string.

(** [a] stands somewhere before [b] in [l]. *)
Definition precedes {A : Type} (a b : A) (l : list A) : Prop :=
  ∃ i j, (i < j)%nat ∧ l !! i = Some a ∧ l !! j = Some b.

(** The ceiling of the quota decorator, when the composer's core is one. *)
Definition quota_ceiling (p : process) : option Z :=
  match Core (composer p) with
  | Some (LimitedStore n _ _) => Some n
  | _ => None
  end.

(** The response written by [http.Error(w, "", 500)] on a fresh writer. *)
Definition error_500 : response := Response 500 Go.newline.

(** The identifier a name carries under the naming convention, computed
    without Go's slices. *)
Definition sidecar_id (name : string) : option string :=
  let n := String.length name in
  if decide ((5 < n)%nat ∧ Go.drop_bytes (n - 5) name = ext)
  then Some (Go.take_bytes (n - 5) name)
  else None.

(** What [scan_entry] does once a name has passed the suffix test. *)
Definition lookup_entry (GetInfo : string → option FileInfo) (id : string)
    (infos : list FileInfo) : M request (list FileInfo) :=
  got <- call_GetInfo GetInfo id ;;
  match got with
  | None => http_Error "" 500 ;;; stop Returned
  | Some info => ret (infos ++ [info])%list
  end.

(** What a finished scan looks like, by the way it ended. *)
Definition scan_post (GetInfo : string → option FileInfo) (names : list string)
    (infos : list FileInfo) (r : request)
    (o : outcome request (list FileInfo)) : Prop :=
  match o with
  | Next infos' r' =>
      writer r' = writer r ∧ listed r' = listed r ∧
      getinfo_calls r' = getinfo_calls r ++ omap sidecar_id names ∧
      Forall (λ n, 5 ≤ String.length n)%nat names ∧
      ∃ new, infos' = infos ++ new ∧
             Forall2 (λ id info, GetInfo id = Some info) (omap sidecar_id names) new
  | Halt Returned r' =>
      writer r' = writer (final_state (http_Error "" 500 r)) ∧
      listed r' = listed r ∧
      ∃ ok bad, getinfo_calls r' = getinfo_calls r ++ ok ++ [bad] ∧
                GetInfo bad = None ∧
                Forall (λ id, is_Some (GetInfo id)) ok ∧
                (ok ++ [bad]) `prefix_of` omap sidecar_id names
  | Halt (Panicked _) r' =>
      writer r' = writer r ∧ listed r' = listed r ∧
      Exists (λ n, String.length n < 5)%nat names ∧
      ∃ ok, getinfo_calls r' = getinfo_calls r ++ ok ∧
            Forall (λ id, is_Some (GetInfo id)) ok ∧
            ok `prefix_of` omap sidecar_id names
  | Halt _ _ => False
  end.

(** A record carrying just an identifier and a [filename]. *)
Definition upload (id fname : string) : FileInfo :=
  {| ID := id; Size := 0; Offset := 0; MetaData := {[ "filename" := fname ]} |}.

(** Stability of the listing: records with equal [filename] are listed in
    the order the scan met them. *)
Definition ties_keep_scan_order (sorter : slice_sorter) : Prop :=
  ∀ names GetInfo eh et infos r shown a b,
    scan GetInfo names [] new_request = Next infos r →
    listed (final_state (homepage sorter (Some names) GetInfo eh et new_request))
      = Some shown →
    filename_of a = filename_of b →
    precedes a b infos → precedes a b shown.

(** ** The ways start-up can end *)

(** The configuration after the block guarded by [conf.storeSize > 0]. *)
Definition clamp (conf : ServerConf) : ServerConf :=
  if ((0 <? storeSize conf) &&
      ((storeSize conf <? maxSize conf) || (maxSize conf =? 0)))%Z
  then with_maxSize conf (storeSize conf)
  else conf.

(** The composer after both [UseIn] calls. *)
Definition stores (conf : ServerConf) : StoreComposer :=
  let fs := FileStore (uploadDir conf) in
  if (0 <? storeSize conf)%Z
  then UseIn (LimitedStore (storeSize conf) (Some fs) (Some fs)) (UseIn fs NewStoreComposer)
  else UseIn fs NewStoreComposer.

Definition upload_route (conf : ServerConf) (cfg : Config) : string * Handler :=
  (uploadEndpoint conf, StripPrefix (uploadEndpoint conf) (TusHandler cfg)).

Definition listing_route (conf : ServerConf) : string * Handler :=
  (listingEndpoint conf,
   StripPrefix (listingEndpoint conf) (HomepageHandler (FileStore (uploadDir conf)))).

Definition routes (conf : ServerConf) (cfg : Config) : list (string * Handler) :=
  upload_route conf cfg ::
  (if decide (listingEndpoint conf ≠ uploadEndpoint conf)
   then [listing_route conf] else []).

Definition timeoutDuration (conf : ServerConf) : Z :=
  Go.wrap64 (timeout conf * 1000000).

Definition the_listener (conf : ServerConf) : Listener :=
  if decide (httpSock conf ≠ "")
  then UnixListener (listen_address conf) (timeoutDuration conf) (timeoutDuration conf)
  else TCPListener (listen_address conf) (timeoutDuration conf) (timeoutDuration conf).

Definition listener_error (W : world) (conf : ServerConf) : option string :=
  if decide (httpSock conf ≠ "")
  then util_NewUnixListener W (listen_address conf)
         (timeoutDuration conf) (timeoutDuration conf)
  else util_NewListener W (listen_address conf)
         (timeoutDuration conf) (timeoutDuration conf).

Definition fatal (fmt err : string) : logline := mkLogline fmt [Str err].

(** The parts of the process state the statements speak about. *)
Definition shape (p : process) (errs : list logline) (c : StoreComposer)
    (cfg : option Config) (rts : list (string * Handler))
    (l : option Listener) (srv : bool) : Prop :=
  stderr p = errs ∧ composer p = c ∧ tus_config p = cfg ∧ mux p = rts ∧
  listener p = l ∧ serving p = srv.

(** The seven ways [Server] can end, each with the answers of the
    surroundings that lead there and the state it leaves. *)
Inductive startup (W : world) (a : cmdline) : outcome process unit → Prop :=
| mkdir_failed e p :
    os_MkdirAll W (opt_dir a) mode_0774 = Some e →
    shape p [fatal "Unable to ensure directory exists: %s" e]
          NewStoreComposer None [] None false →
    startup W a (Halt (Exited 1) p)
| handler_failed e p :
    let conf := clamp (read_conf a) in
    let cfg := tus_Config conf (stores conf) in
    os_MkdirAll W (opt_dir a) mode_0774 = None →
    tusd_NewHandler W cfg = Some e →
    shape p [fatal "Unable to create handler: %s" e]
          (stores conf) (Some cfg) [] None false →
    startup W a (Halt (Exited 1) p)
| pattern_rejected msg p :
    let conf := clamp (read_conf a) in
    let cfg := tus_Config conf (stores conf) in
    os_MkdirAll W (opt_dir a) mode_0774 = None →
    tusd_NewHandler W cfg = None →
    opt_base_path a = "" →
    shape p [] (stores conf) (Some cfg) [] None false →
    startup W a (Halt (Panicked msg) p)
| template_failed e p :
    let conf := clamp (read_conf a) in
    let cfg := tus_Config conf (stores conf) in
    os_MkdirAll W (opt_dir a) mode_0774 = None →
    tusd_NewHandler W cfg = None →
    opt_base_path a ≠ "" → opt_base_path a ≠ "/" →
    template_Parse W = Some e →
    shape p [fatal "Unable to parse template: %s" e]
          (stores conf) (Some cfg) [upload_route conf cfg] None false →
    startup W a (Halt (Exited 1) p)
| listener_failed e p :
    let conf := clamp (read_conf a) in
    let cfg := tus_Config conf (stores conf) in
    os_MkdirAll W (opt_dir a) mode_0774 = None →
    tusd_NewHandler W cfg = None →
    opt_base_path a ≠ "" →
    (opt_base_path a ≠ "/" → template_Parse W = None) →
    listener_error W conf = Some e →
    shape p [fatal "Unable to create listener: %s" e]
          (stores conf) (Some cfg) (routes conf cfg) None false →
    startup W a (Halt (Exited 1) p)
| serve_failed e p :
    let conf := clamp (read_conf a) in
    let cfg := tus_Config conf (stores conf) in
    os_MkdirAll W (opt_dir a) mode_0774 = None →
    tusd_NewHandler W cfg = None →
    opt_base_path a ≠ "" →
    (opt_base_path a ≠ "/" → template_Parse W = None) →
    listener_error W conf = None →
    http_Serve W (the_listener conf) = Some e →
    shape p [fatal "Unable to serve: %s" e]
          (stores conf) (Some cfg) (routes conf cfg) (Some (the_listener conf)) false →
    startup W a (Halt (Exited 1) p)
| serving_forever p :
    let conf := clamp (read_conf a) in
    let cfg := tus_Config conf (stores conf) in
    os_MkdirAll W (opt_dir a) mode_0774 = None →
    tusd_NewHandler W cfg = None →
    opt_base_path a ≠ "" →
    (opt_base_path a ≠ "/" → template_Parse W = None) →
    listener_error W conf = None →
    http_Serve W (the_listener conf) = None →
    shape p [] (stores conf) (Some cfg) (routes conf cfg)
          (Some (the_listener conf)) true →
    startup W a (Halt Blocked p).

(** The process has exited with status 1, [line] is what it logged to
    standard error, and no listener or server was left behind. *)
Definition dies_with (o : outcome process unit) (line : logline) : Prop :=
  ∃ p, o = Halt (Exited 1) p ∧ stderr p = [line] ∧
       listener p = None ∧ serving p = false.

(** ** Example data *)

(** Three uploads, stored under the identifiers 1, 2 and 3 with the
    filenames b.txt, a.txt and c.txt; identifier 9 has no readable
    sidecar. *)
Definition demo_store (id : string) : option FileInfo :=
  if decide (id = "1") then Some (upload "1" "b.txt")
  else if decide (id = "2") then Some (upload "2" "a.txt")
  else if decide (id = "3") then Some (upload "3" "c.txt")
  else None.

Definition demo_dir : list string :=
  ["1.bin"; "1.info"; "2.bin"; "2.info"; "3.bin"; "3.info"].

Definition demo_sorted : list FileInfo :=
  [upload "2" "a.txt"; upload "1" "b.txt"; upload "3" "c.txt"].

(** Surroundings in which every call succeeds and [http.Serve] keeps
    serving. *)
Definition calm : world :=
  {| os_MkdirAll := λ _ _, None; tusd_Capabilities := λ _, "";
     tusd_NewHandler := λ _, None;
     template_Parse := None;
     util_NewUnixListener := λ _ _ _, None; util_NewListener := λ _ _ _, None;
     http_Serve := λ _, None |}.

Definition broken_disk : world :=
  {| os_MkdirAll := λ _ _, Some "permission denied";
     tusd_Capabilities := λ _, ""; tusd_NewHandler := λ _, None;
     template_Parse := None;
     util_NewUnixListener := λ _ _ _, None; util_NewListener := λ _ _ _, None;
     http_Serve := λ _, None |}.

Definition bad_handler : world :=
  {| os_MkdirAll := λ _ _, None; tusd_Capabilities := λ _, "";
     tusd_NewHandler := λ _, Some "invalid config";
     template_Parse := None;
     util_NewUnixListener := λ _ _ _, None; util_NewListener := λ _ _ _, None;
     http_Serve := λ _, None |}.

Definition bad_template : world :=
  {| os_MkdirAll := λ _ _, None; tusd_Capabilities := λ _, "";
     tusd_NewHandler := λ _, None;
     template_Parse := Some "unexpected EOF";
     util_NewUnixListener := λ _ _ _, None; util_NewListener := λ _ _ _, None;
     http_Serve := λ _, None |}.

Definition port_taken : world :=
  {| os_MkdirAll := λ _ _, None; tusd_Capabilities := λ _, "";
     tusd_NewHandler := λ _, None;
     template_Parse := None;
     util_NewUnixListener := λ _ _ _, None;
     util_NewListener := λ _ _ _, Some "address already in use";
     http_Serve := λ _, None |}.

(** The defaults of [serverUsage], with the given base path and sizes. *)
Definition demo_args (base : string) (max_size store_size : Z) : cmdline :=
  {| opt_host := "0.0.0.0"; opt_port := "1080"; opt_unix_sock := "";
     opt_max_size := max_size; opt_dir := "./data"; opt_store_size := store_size;
     opt_base_path := base; opt_timeout := 30000; opt_behind_proxy := false |}.

(** A record whose metadata has no [filename] key. *)
Definition nameless (id : string) : FileInfo :=
  {| ID := id; Size := 0; Offset := 0; MetaData := ∅ |}.

(** One upload named b.txt under identifier 1 and one without a filename
    under identifier 7. *)
Definition anon_store (id : string) : option FileInfo :=
  if decide (id = "1") then Some (upload "1" "b.txt")
  else if decide (id = "7") then Some (nameless "7")
  else None.

(** The defaults again, listening on a Unix socket. *)
Definition sock_args (sock : string) : cmdline :=
  {| opt_host := "0.0.0.0"; opt_port := "1080"; opt_unix_sock := sock;
     opt_max_size := 0; opt_dir := "./data"; opt_store_size := 0;
     opt_base_path := "/files/"; opt_timeout := 30000; opt_behind_proxy := false |}.

(** Thirteen uploads, stored under the identifiers 01 to 13, each with
    its filename.  The uploads 01, 02 and 07 are all named a.txt; the
    other ten have names of their own, in ascending order. *)
Definition shelf : list (string * string) :=
  [ ("01", "a.txt"); ("02", "a.txt"); ("03", "c.txt"); ("04", "d.txt");
    ("05", "e.txt"); ("06", "f.txt"); ("07", "a.txt"); ("08", "h.txt");
    ("09", "i.txt"); ("10", "j.txt"); ("11", "k.txt"); ("12", "l.txt");
    ("13", "m.txt") ].

(** The sidecars of the shelf, in name order, which is the order
    [ioutil.ReadDir] returns them in. *)
Definition shelf_dir : list string := (λ e, sidecar_of e.1) <$> shelf.

Definition shelf_store (id : string) : option FileInfo :=
  (λ e, upload e.1 e.2) <$> List.find (λ e, String.eqb e.1 id) shelf.

(** The records of the shelf in the order the scan collects them. *)
Definition shelf_scanned : list FileInfo := (λ e, upload e.1 e.2) <$> shelf.

(** The records of the shelf in the order the page lists them. *)
Definition shelf_listed : list FileInfo :=
  [ upload "07" "a.txt"; upload "02" "a.txt"; upload "01" "a.txt";
    upload "03" "c.txt"; upload "04" "d.txt"; upload "05" "e.txt";
    upload "06" "f.txt"; upload "08" "h.txt"; upload "09" "i.txt";
    upload "10" "j.txt"; upload "11" "k.txt"; upload "12" "l.txt";
    upload "13" "m.txt" ].

(** Five uploads, three of which share the name same.txt. *)
Definition triplet_store (id : string) : option FileInfo :=
  if decide (id = "1") then Some (upload "1" "same.txt")
  else if decide (id = "2") then Some (upload "2" "zeta.txt")
  else if decide (id = "3") then Some (upload "3" "same.txt")
  else if decide (id = "4") then Some (upload "4" "alpha.txt")
  else if decide (id = "5") then Some (upload "5" "same.txt")
  else None.

Definition triplet_dir : list string :=
  ["1.info"; "2.info"; "3.info"; "4.info"; "5.info"].

Definition triplet_scanned : list FileInfo :=
  [ upload "1" "same.txt"; upload "2" "zeta.txt"; upload "3" "same.txt";
    upload "4" "alpha.txt"; upload "5" "same.txt" ].

Definition triplet_listed : list FileInfo :=
  [ upload "4" "alpha.txt"; upload "1" "same.txt"; upload "3" "same.txt";
    upload "5" "same.txt"; upload "2" "zeta.txt" ].

(** ** Strings and slices *)

Lemma app_cons c s t : String c s +:+ t = String c (s +:+ t).
Proof. reflexivity. Qed.

Lemma app_empty_l s : "" +:+ s = s.
Proof. reflexivity. Qed.

Lemma app_empty_r s : s +:+ "" = s.
Proof. induction s as [|c s IH]; [done|]. by rewrite app_cons, IH. Qed.

Lemma app_assoc' s t u : (s +:+ t) +:+ u = s +:+ t +:+ u.
Proof. induction s as [|c s IH]; [done|]. by rewrite !app_cons, IH. Qed.

Lemma length_app s t :
  String.length (s +:+ t) = (String.length s + String.length t)%nat.
Proof. induction s as [|c s IH]; [done|]. rewrite app_cons. simpl. by rewrite IH. Qed.

Lemma take_drop_bytes n s : Go.take_bytes n s +:+ Go.drop_bytes n s = s.
Proof.
  revert s. induction n as [|n IH]; intros [|c s]; simpl; try done.
  by rewrite app_cons, IH.
Qed.

Lemma take_bytes_app s t : Go.take_bytes (String.length s) (s +:+ t) = s.
Proof. induction s as [|c s IH]; [done|]. rewrite app_cons. simpl. by rewrite IH. Qed.

Lemma drop_bytes_app s t : Go.drop_bytes (String.length s) (s +:+ t) = t.
Proof. induction s as [|c s IH]; [done|]. rewrite app_cons. simpl. by rewrite IH. Qed.

Lemma length_take_bytes n s :
  (n ≤ String.length s)%nat → String.length (Go.take_bytes n s) = n.
Proof.
  revert s. induction n as [|n IH]; intros [|c s]; simpl; intros; try lia.
  rewrite IH; lia.
Qed.

Lemma sidecar_of_inj id1 id2 : sidecar_of id1 = sidecar_of id2 → id1 = id2.
Proof.
  unfold sidecar_of. intros H.
  assert (String.length id1 = String.length id2) as Hlen.
  { apply (f_equal String.length) in H. rewrite !length_app in H. lia. }
  apply (f_equal (Go.take_bytes (String.length id1))) in H.
  rewrite take_bytes_app, Hlen, take_bytes_app in H. done.
Qed.

Lemma len_sidecar_of id : Go.len (sidecar_of id) = (Go.len id + 5)%Z.
Proof. unfold Go.len, sidecar_of. rewrite length_app. simpl. lia. Qed.

(** ** The order on [filename] values *)

Lemma str_lt_false_le a b : Go.str_lt b a = false ↔ (a ≤ b)%string.
Proof.
  unfold Go.str_lt, String.le, String.ltb, String.leb.
  rewrite (String.compare_antisym a b).
  destruct (String.compare b a); simpl; split; intros; done.
Qed.

Lemma in_order_by_filename a b : in_order less_filename a b ↔ by_filename a b.
Proof. apply str_lt_false_le. Qed.

#[export] Instance by_filename_trans : Transitive by_filename.
Proof. intros a b c. unfold by_filename. apply transitivity. Qed.

#[export] Instance less_filename_strict_weak : StrictWeak less_filename.
Proof.
  split.
  - intros a b Hab. apply in_order_by_filename. unfold by_filename.
    destruct (total String.le (filename_of a) (filename_of b)) as [H|H]; [done|].
    apply str_lt_false_le in H. unfold less_filename in Hab. congruence.
  - intros a b c H1 H2. apply in_order_by_filename.
    apply in_order_by_filename in H1, H2. by etrans.
Qed.

Lemma Sorted_by_filename l :
  Sorted (in_order less_filename) l → StronglySorted by_filename l.
Proof.
  intros H. apply Sorted_StronglySorted; [apply _|].
  induction H as [|a l Hs IH Hd]; constructor; [done|].
  destruct Hd; constructor. by apply in_order_by_filename.
Qed.

(** ** The reference sort meets the contract of [sort.Slice] *)

Section InsertionCorrect.
Context {A : Type} (less goes_before : A → A → bool).
Hypothesis before_yes : ∀ a b, goes_before a b = true → in_order less a b.
Hypothesis before_no : ∀ a b, goes_before a b = false → in_order less b a.

Lemma place_perm a l : place goes_before a l ≡ₚ a :: l.
Proof.
  induction l as [|b l IH]; simpl; [done|].
  destruct (goes_before a b); [done|].
  rewrite IH. apply Permutation_swap.
Qed.

Lemma insertion_sort_from_perm l acc :
  fold_left (λ acc a, place goes_before a acc) l acc ≡ₚ l ++ acc.
Proof.
  revert acc. induction l as [|a l IH]; intros acc; simpl; [done|].
  rewrite IH, place_perm. by rewrite Permutation_middle.
Qed.

Lemma insertion_sort_perm l : insertion_sort goes_before l ≡ₚ l.
Proof.
  unfold insertion_sort. rewrite insertion_sort_from_perm. by rewrite app_nil_r.
Qed.

Lemma HdRel_place b a l :
  in_order less b a → HdRel (in_order less) b l →
  HdRel (in_order less) b (place goes_before a l).
Proof.
  intros Hba Hd. destruct l as [|c l]; simpl; [by constructor|].
  inversion_clear Hd. destruct (goes_before a c); by constructor.
Qed.

Lemma place_sorted a l :
  Sorted (in_order less) l → Sorted (in_order less) (place goes_before a l).
Proof.
  induction 1 as [|b l Hs IH Hd]; simpl.
  - by repeat constructor.
  - destruct (goes_before a b) eqn:Hab.
    + constructor; [by constructor|]. constructor. by apply before_yes.
    + constructor; [done|]. apply HdRel_place; [|done]. by apply before_no.
Qed.

Lemma insertion_sort_from_sorted l acc :
  Sorted (in_order less) acc →
  Sorted (in_order less) (fold_left (λ acc a, place goes_before a acc) l acc).
Proof.
  revert acc. induction l as [|a l IH]; intros acc Hacc; simpl; [done|].
  by apply IH, place_sorted.
Qed.

Lemma insertion_sort_sorted l :
  Sorted (in_order less) (insertion_sort goes_before l).
Proof. apply insertion_sort_from_sorted. constructor. Qed.

End InsertionCorrect.

Lemma sort_ties_kept_sorted {A} (less : A → A → bool) l :
  StrictWeak less → Sorted (in_order less) (ties_kept A less l).
Proof.
  intros Hless. apply insertion_sort_sorted.
  - intros a b. apply less_asym.
  - intros a b Hab. exact Hab.
Qed.

Lemma ties_kept_contract : slice_contract ties_kept.
Proof.
  split.
  - intros A less x. apply insertion_sort_perm.
  - intros A less x. apply sort_ties_kept_sorted.
Qed.

(** With the sort that keeps ties, the records of each filename come out
    in the order they went in: this implementation is stable. *)
Lemma place_other_name f a acc :
  filename_of a ≠ f →
  filter (λ c, filename_of c = f) (place less_filename a acc)
    = filter (λ c, filename_of c = f) acc.
Proof.
  intros Hne. induction acc as [|b acc IH]; simpl.
  - by rewrite filter_cons_False.
  - destruct (less_filename a b); [by rewrite filter_cons_False|].
    destruct (decide (filename_of b = f)) as [Hb|Hb].
    + by rewrite !filter_cons_True, IH by done.
    + by rewrite !filter_cons_False, IH by done.
Qed.

Lemma place_same_name a acc :
  StronglySorted by_filename acc →
  filter (λ c, filename_of c = filename_of a) (place less_filename a acc)
    = filter (λ c, filename_of c = filename_of a) acc ++ [a].
Proof.
  induction 1 as [|b acc Hs IH Hb]; simpl.
  - by rewrite filter_cons_True.
  - destruct (less_filename a b) eqn:Hab.
    + rewrite filter_cons_True by done.
      assert (Forall (λ c, filename_of c ≠ filename_of a) (b :: acc)) as Hall.
      { apply Forall_forall. intros c Hc Heq.
        assert (by_filename b c) as Hbc.
        { apply elem_of_cons in Hc as [->|Hc]; [unfold by_filename; done|].
          rewrite Forall_forall in Hb. by apply Hb. }
        unfold by_filename in Hbc. rewrite Heq in Hbc.
        apply str_lt_false_le in Hbc. unfold less_filename in Hab. congruence. }
      assert (filter (λ c, filename_of c = filename_of a) (b :: acc) = []) as ->;
        [|done].
      clear -Hall. induction Hall as [|c l Hc _ IHl]; [done|].
      by rewrite filter_cons_False.
    + destruct (decide (filename_of b = filename_of a)) as [Heq|Hne].
      * by rewrite !filter_cons_True, IH by done.
      * by rewrite !filter_cons_False, IH by done.
Qed.

Lemma insertion_sort_from_stable f l acc :
  Sorted (in_order less_filename) acc →
  filter (λ c, filename_of c = f)
         (fold_left (λ acc a, place less_filename a acc) l acc)
    = filter (λ c, filename_of c = f) acc ++ filter (λ c, filename_of c = f) l.
Proof.
  revert acc. induction l as [|a l IH]; intros acc Hacc; simpl.
  - by rewrite app_nil_r.
  - rewrite IH.
    + destruct (decide (filename_of a = f)) as [<-|Hne].
      * rewrite place_same_name by by apply Sorted_by_filename.
        by rewrite filter_cons_True, <- app_assoc.
      * by rewrite place_other_name, filter_cons_False.
    + apply place_sorted; [apply less_asym|by intros ??|done].
Qed.

Lemma ties_kept_stable f infos :
  filter (λ c, filename_of c = f) (ties_kept FileInfo less_filename infos)
    = filter (λ c, filename_of c = f) infos.
Proof. apply (insertion_sort_from_stable f infos []). constructor. Qed.

(** ** One directory entry *)

Lemma sidecar_id_of id : id ≠ "" → sidecar_id (sidecar_of id) = Some id.
Proof.
  intros Hid. unfold sidecar_id, sidecar_of. rewrite length_app. simpl.
  replace (String.length id + 5 - 5)%nat with (String.length id) by lia.
  rewrite drop_bytes_app, take_bytes_app.
  destruct id; [done|]. simpl. rewrite decide_True; [done|]. split; [lia|done].
Qed.

Lemma sidecar_id_Some name id :
  sidecar_id name = Some id ↔ id ≠ "" ∧ name = sidecar_of id.
Proof.
  split.
  - unfold sidecar_id. case_decide as H; [|done]. destruct H as [Hlen Hext].
    intros [= <-]. split.
    + intros Hid. apply (f_equal String.length) in Hid.
      rewrite length_take_bytes in Hid; simpl in Hid; lia.
    + unfold sidecar_of. rewrite <- Hext. by rewrite take_drop_bytes.
  - intros [Hid ->]. by apply sidecar_id_of.
Qed.

Lemma sidecar_id_None name : sidecar_id name = None ↔ ¬ is_sidecar name.
Proof.
  split.
  - intros Hnone (id & Hid & ->). by rewrite sidecar_id_of in Hnone.
  - intros Hno. destruct (sidecar_id name) as [id|] eqn:E; [|done].
    apply sidecar_id_Some in E as [??]. destruct Hno. by exists id.
Qed.

Lemma scan_entry_short GetInfo name infos r :
  (String.length name < 5)%nat →
  scan_entry GetInfo name infos r = Halt (Panicked "slice bounds out of range") r.
Proof.
  intros Hlen. unfold scan_entry, bind, eval, Go.slice_from, Go.len. simpl.
  rewrite decide_False; [done|]. lia.
Qed.

Lemma scan_entry_long GetInfo name infos r :
  (5 ≤ String.length name)%nat →
  scan_entry GetInfo name infos r =
    match sidecar_id name with
    | Some id => lookup_entry GetInfo id infos r
    | None => Next infos r
    end.
Proof.
  intros Hlen. unfold scan_entry, sidecar_id, Go.slice_from, Go.slice_to, Go.len.
  simpl String.length.
  replace (Z.to_nat (Z.of_nat (String.length name) - Z.of_nat 5))
    with (String.length name - 5)%nat by lia.
  rewrite !decide_True by lia. cbv [bind eval ret lookup_entry].
  destruct (0 <? Z.of_nat (String.length name) - Z.of_nat 5)%Z eqn:Hpos.
  - apply Z.ltb_lt in Hpos.
    destruct (String.eqb_spec (Go.drop_bytes (String.length name - 5) name) ext)
      as [Hext|Hext].
    + rewrite decide_True by (split; [lia|done]). reflexivity.
    + rewrite decide_False by (intros [??]; done). reflexivity.
  - apply Z.ltb_ge in Hpos. rewrite decide_False by lia. reflexivity.
Qed.

(** ** The scan of the directory *)

Lemma scan_cons GetInfo name rest infos r :
  scan GetInfo (name :: rest) infos r =
    match scan_entry GetInfo name infos r with
    | Next infos' r' => scan GetInfo rest infos' r'
    | Halt h r' => Halt h r'
    end.
Proof. reflexivity. Qed.

Lemma scan_spec GetInfo names :
  ∀ infos r, scan_post GetInfo names infos r (scan GetInfo names infos r).
Proof.
  induction names as [|name rest IH]; intros infos r.
  - simpl. repeat split; rewrite ?app_nil_r; try done.
    exists []. by rewrite app_nil_r.
  - rewrite scan_cons.
    destruct (decide (String.length name < 5)%nat) as [Hshort|Hlong].
    { rewrite scan_entry_short by done. simpl. repeat split; try done.
      - by apply Exists_cons_hd.
      - exists []. rewrite app_nil_r. repeat split; try done. apply prefix_nil. }
    rewrite scan_entry_long by lia. simpl omap.
    destruct (sidecar_id name) as [id|] eqn:Hid.
    + unfold lookup_entry, bind, call_GetInfo.
      destruct (GetInfo id) as [info|] eqn:Hget.
      * unfold ret.
        specialize (IH (infos ++ [info])
          {| writer := writer r; getinfo_calls := getinfo_calls r ++ [id];
             listed := listed r |}).
        destruct (scan GetInfo rest _ _) as [infos' r'|[|c|msg|] r']; simpl in *;
          rewrite ?Hid; try done.
        -- destruct IH as (Hw & Hl & Hc & Hlen & new & -> & Hall).
           repeat split; try done.
           ++ by rewrite Hc, <- app_assoc.
           ++ constructor; [lia|done].
           ++ exists (info :: new). split; [by rewrite <- app_assoc|].
              by constructor.
        -- destruct IH as (Hw & Hl & ok & bad & Hc & Hbad & Hok & Hpre).
           repeat split; try done.
           exists (id :: ok), bad. repeat split; try done.
           ++ by rewrite Hc, <- app_assoc.
           ++ constructor; [by rewrite Hget|done].
           ++ simpl. by apply prefix_cons.
        -- destruct IH as (Hw & Hl & Hex & ok & Hc & Hok & Hpre).
           repeat split; try done; [by apply Exists_cons_tl|].
           exists (id :: ok). repeat split.
           ++ by rewrite Hc, <- app_assoc.
           ++ constructor; [by rewrite Hget|done].
           ++ by apply prefix_cons.
      * simpl. rewrite Hid. repeat split.
        exists [], id. repeat split; try done.
        simpl. apply prefix_cons, prefix_nil.
    + specialize (IH infos r).
      destruct (scan GetInfo rest infos r) as [infos' r'|[|c|msg|] r']; simpl in *;
        rewrite ?Hid; try done.
      * destruct IH as (Hw & Hl & Hc & Hlen & new & -> & Hall).
        repeat split; try done; [constructor; [lia|done]|]. by exists new.
      * destruct IH as (Hw & Hl & Hex & ok & Hc & Hok & Hpre).
        repeat split; try done; [by apply Exists_cons_tl|]. by exists ok.
Qed.

(** ** The listing handler *)

Lemma homepage_scan sorter names GetInfo eh et r :
  homepage sorter (Some names) GetInfo eh et r =
    match scan GetInfo names [] r with
    | Next infos r' =>
        Next () (final_state
                   (ExecuteTemplate eh et (sorter FileInfo less_filename infos) r'))
    | Halt h r' => Halt h r'
    end.
Proof.
  unfold homepage. cbv [bind]. by destruct (scan GetInfo names [] r).
Qed.

Lemma Forall2_lookup_Some (GetInfo : string → option FileInfo) ids infos id :
  Forall2 (λ id info, GetInfo id = Some info) ids infos →
  id ∈ ids → ∃ info, GetInfo id = Some info ∧ info ∈ infos.
Proof.
  induction 1 as [|i x ids infos Hix _ IH]; intros Hin.
  - by apply elem_of_nil in Hin.
  - apply elem_of_cons in Hin as [->|Hin].
    + exists x. split; [done|]. apply elem_of_cons. by left.
    + destruct (IH Hin) as (info & ? & ?). exists info. split; [done|].
      apply elem_of_cons. by right.
Qed.

Lemma sidecar_in_omap (names : list string) id :
  id ≠ "" → sidecar_of id ∈ names → id ∈ omap sidecar_id names.
Proof.
  intros Hid Hin. apply list_elem_of_omap. exists (sidecar_of id).
  split; [done|]. by apply sidecar_id_of.
Qed.

(** How a request for the listing ends, in terms of the directory. *)
Lemma homepage_cases sorter names GetInfo eh et :
  let o := homepage sorter (Some names) GetInfo eh et new_request in
  (∃ infos,
      Forall2 (λ id info, GetInfo id = Some info) (omap sidecar_id names) infos ∧
      Forall (λ n, 5 ≤ String.length n)%nat names ∧
      getinfo_calls (final_state o) = omap sidecar_id names ∧
      listed (final_state o) = Some (sorter FileInfo less_filename infos) ∧
      respond o =
        Response 200 (listing_page eh et (sorter FileInfo less_filename infos)))
  ∨ (∃ ok bad,
      getinfo_calls (final_state o) = ok ++ [bad] ∧ GetInfo bad = None ∧
      Forall (λ id, is_Some (GetInfo id)) ok ∧
      (ok ++ [bad]) `prefix_of` omap sidecar_id names ∧
      listed (final_state o) = None ∧ respond o = error_500)
  ∨ (Exists (λ n, String.length n < 5)%nat names ∧
      Forall (λ id, is_Some (GetInfo id)) (getinfo_calls (final_state o)) ∧
      getinfo_calls (final_state o) `prefix_of` omap sidecar_id names ∧
      listed (final_state o) = None ∧ respond o = Aborted).
Proof.
  intros o. subst o. rewrite homepage_scan.
  pose proof (scan_spec GetInfo names [] new_request) as H.
  destruct (scan GetInfo names [] new_request) as [infos r'|[|c|msg|] r'];
    simpl in H; try done.
  - left. destruct H as (Hw & Hl & Hc & Hlen & new & -> & Hall).
    exists new. repeat split; try done.
    unfold respond, ExecuteTemplate, bind, modify, Write, on_writer. simpl.
    rewrite Hw. reflexivity.
  - right; left. destruct H as (Hw & Hl & ok & bad & Hc & Hbad & Hok & Hpre).
    exists ok, bad. repeat split; try done.
    unfold respond. by rewrite Hw.
  - right; right. destruct H as (Hw & Hl & Hex & ok & Hc & Hok & Hpre).
    simpl. rewrite Hc. repeat split; done.
Qed.


(** C3.  A [GetInfo] call that fails during the request makes the
    response a bare status 500 with nothing listed.  In terms of the
    directory: a sidecar whose record does not resolve never leaves a
    rendered page behind, and it yields the status 500 whenever no entry
    name is shorter than the suffix (which is so for every name the file
    store itself creates). *)
Theorem failed_lookup_fails_listing sorter names GetInfo eh et id :
  GetInfo id = None →
  let o := homepage sorter (Some names) GetInfo eh et new_request in
  (id ∈ getinfo_calls (final_state o) →
     respond o = error_500 ∧ listed (final_state o) = None) ∧
  (id ≠ "" → sidecar_of id ∈ names →
     listed (final_state o) = None ∧ ∀ content, respond o ≠ Response 200 content) ∧
  (id ≠ "" → sidecar_of id ∈ names →
   Forall (λ n, 5 ≤ String.length n)%nat names →
     respond o = error_500).
Proof.
  intros Hfail o. subst o.
  destruct (homepage_cases sorter names GetInfo eh et)
    as [(infos & Hall & _ & Hc & Hl & Hr)|[(ok & bad & Hc & _ & _ & _ & Hl & Hr)
       |(Hshort & Hok & Hpre & Hl & Hr)]].
  - assert (id ∈ omap sidecar_id names → False) as Hno.
    { intros Hin. destruct (Forall2_lookup_Some _ _ _ _ Hall Hin) as (? & ? & _).
      congruence. }
    split; [|split].
    + rewrite Hc. intros Hin. by destruct Hno.
    + intros Hid Hin. destruct Hno. by apply sidecar_in_omap.
    + intros Hid Hin _. destruct Hno. by apply sidecar_in_omap.
  - rewrite Hr, Hl. split; [done|]. split; [|done].
    intros _ _. split; [done|]. by intros c.
  - split; [|split].
    + intros Hin. rewrite Forall_forall in Hok. apply Hok in Hin as [? ?].
      congruence.
    + intros _ _. rewrite Hr. split; [done|]. by intros c.
    + intros _ _ Hlong. exfalso. apply Exists_exists in Hshort as (n & Hn & Hlt).
      rewrite Forall_forall in Hlong. specialize (Hlong n Hn). lia.
Qed.

(** C4.  A directory entry whose name is shorter than the suffix, here
    the one-byte name [a], is not skipped: slicing it for the diagnostic
    print panics, the request is aborted, and [GetInfo] is never called,
    whatever else the directory holds. *)
Theorem short_name_aborts_listing sorter GetInfo eh et rest :
  serve_listing sorter (Some ("a" :: rest)) GetInfo eh et = Aborted ∧
  getinfo_calls
    (final_state (homepage sorter (Some ("a" :: rest)) GetInfo eh et new_request))
    = [].
Proof. split; reflexivity. Qed.

(** ** Records that tie on [filename] *)

Lemma precedes_fmap {A B : Type} (f : A → B) a b (l : list A) :
  precedes a b l → precedes (f a) (f b) (f <$> l).
Proof.
  intros (i & j & Hij & Hi & Hj). exists i, j.
  by rewrite !list_lookup_fmap, Hi, Hj.
Qed.

Lemma not_precedes_NoDup {A : Type} (a b : A) l i j :
  NoDup l → l !! i = Some a → l !! j = Some b → (j ≤ i)%nat → ¬ precedes a b l.
Proof.
  intros Hnd Hi Hj Hle (i' & j' & Hlt & Hi' & Hj').
  pose proof (NoDup_lookup l i i' a Hnd Hi Hi').
  pose proof (NoDup_lookup l j j' b Hnd Hj Hj'). lia.
Qed.

(** C7, as stated, fails on the code.  The directory holds the thirteen
    sidecars [01.info] to [13.info]; the uploads 01 and 07 are both named
    a.txt.  The scan collects 01 before 07.  With thirteen records
    [sort.Slice] no longer sorts by insertion alone: it picks a pivot and
    partitions, which carries 07 to the front of the slice, and the page
    lists 07 before 01.  This is so with the sort of Go 1.19 and later,
    whatever its pseudo-random generator computes, and with the sort of
    the releases before. *)
Lemma ties_order_not_guaranteed :
  filename_of (upload "01" "a.txt") = filename_of (upload "07" "a.txt") ∧
  precedes (upload "01" "a.txt") (upload "07" "a.txt") shelf_scanned ∧
  precedes (upload "07" "a.txt") (upload "01" "a.txt") shelf_listed ∧
  ¬ precedes (upload "01" "a.txt") (upload "07" "a.txt") shelf_listed ∧
  (∃ r, scan shelf_store shelf_dir [] new_request = Next shelf_scanned r) ∧
  (∀ random,
     sort.Slice_on less_filename random shelf_scanned = Next () shelf_listed) ∧
  sort.go118.Slice_on less_filename shelf_scanned = Next () shelf_listed ∧
  ∀ sorter,
    (∃ random, sorter = sort.Slice random) ∨ sorter = sort.go118.Slice →
    listed (final_state (homepage sorter (Some shelf_dir) shelf_store id id
                                  new_request)) = Some shelf_listed ∧
    serve_listing sorter (Some shelf_dir) shelf_store id id
      = Response 200 (listing_page id id shelf_listed) ∧
    ¬ ties_keep_scan_order sorter.
Proof.
  assert (precedes (upload "01" "a.txt") (upload "07" "a.txt") shelf_scanned)
    as Hscanned.
  { exists 0%nat, 6%nat. split; [lia|]. split; reflexivity. }
  assert (¬ precedes (upload "01" "a.txt") (upload "07" "a.txt") shelf_listed)
    as Hnot.
  { intros Hp. apply (precedes_fmap ID) in Hp. revert Hp.
    apply (not_precedes_NoDup _ _ _ 2 0); [|reflexivity|reflexivity|lia].
    apply (bool_decide_unpack _). by vm_compute. }
  assert (scan shelf_store shelf_dir [] new_request
            = Next shelf_scanned
                {| writer := writer new_request; getinfo_calls := shelf.*1;
                   listed := None |}) as Hscan by (vm_compute; reflexivity).
  assert (∀ random,
            sort.Slice_on less_filename random shelf_scanned = Next () shelf_listed)
    as Hpdq by (intros random; vm_compute; reflexivity).
  assert (sort.go118.Slice_on less_filename shelf_scanned = Next () shelf_listed)
    as Hquick by (vm_compute; reflexivity).
  split; [reflexivity|]. split; [exact Hscanned|]. split.
  { exists 0%nat, 2%nat. split; [lia|]. split; reflexivity. }
  split; [exact Hnot|]. split; [by eexists|]. split; [exact Hpdq|].
  split; [exact Hquick|]. intros sorter Hsorter.
  assert (sorter FileInfo less_filename shelf_scanned = shelf_listed) as Hsorted.
  { destruct Hsorter as [[random ->]| ->].
    - unfold sort.Slice. by rewrite Hpdq.
    - unfold sort.go118.Slice. by rewrite Hquick. }
  assert (listed (final_state (homepage sorter (Some shelf_dir) shelf_store id id
                                 new_request)) = Some shelf_listed) as Hshown.
  { rewrite homepage_scan, Hscan. simpl. by rewrite Hsorted. }
  split; [exact Hshown|]. split.
  - unfold serve_listing. rewrite homepage_scan, Hscan. simpl. by rewrite Hsorted.
  - intros Hkeep. apply Hnot.
    by apply (Hkeep shelf_dir shelf_store id id shelf_scanned _ shelf_listed
                    (upload "01" "a.txt") (upload "07" "a.txt") Hscan Hshown).
Qed.

(** C7, amended.  Whatever [sort.Slice] does with ties, the page shows the
    collected records, each filename with exactly the records that carry
    it, and records with equal filenames in one unbroken run. *)
Theorem ties_stay_together sorter names GetInfo eh et infos r shown :
  slice_contract sorter →
  scan GetInfo names [] new_request = Next infos r →
  listed (final_state (homepage sorter (Some names) GetInfo eh et new_request))
    = Some shown →
  shown ≡ₚ infos ∧
  (∀ f, filter (λ c, filename_of c = f) shown
          ≡ₚ filter (λ c, filename_of c = f) infos) ∧
  (∀ a b l1 l2 l3,
      shown = l1 ++ a :: l2 ++ b :: l3 → filename_of a = filename_of b →
      Forall (λ c, filename_of c = filename_of a) l2).
Proof.
  intros [Hperm' Hsort] Hscan. rewrite homepage_scan, Hscan. simpl. intros [= <-].
  assert (sorter FileInfo less_filename infos ≡ₚ infos) as Hperm by apply Hperm'.
  split; [done|]. split; [by intros f; rewrite Hperm|].
  intros a b l1 l2 l3 Heq Hab.
  pose proof (Sorted_by_filename _ (Hsort _ less_filename infos _)) as Hsorted.
  rewrite Heq in Hsorted.
  apply StronglySorted_app_1_r, StronglySorted_cons in Hsorted as [Ha Hsorted].
  apply Forall_forall. intros c Hc.
  assert (by_filename a c) as Hac.
  { rewrite Forall_forall in Ha. apply Ha, elem_of_app. by left. }
  assert (by_filename c b) as Hcb.
  { eapply StronglySorted_app_1_elem_of; [done..|]. apply elem_of_cons. by left. }
  unfold by_filename in *. rewrite <- Hab in Hcb.
  by apply (anti_symm String.le).
Qed.

(** ** Start-up, block by block *)

Lemma limit_store_run conf p :
  composer p = UseIn (FileStore (uploadDir conf)) NewStoreComposer →
  ∃ p', limit_store conf p = Next (clamp conf) p' ∧
        shape p' (stderr p) (stores conf) (tus_config p) (mux p)
              (listener p) (serving p).
Proof.
  intros Hc. unfold limit_store, clamp, stores.
  destruct (0 <? storeSize conf)%Z; simpl.
  - cbv [bind get use_store stdout_Printf modify ret]. rewrite Hc. simpl.
    destruct ((storeSize conf <? maxSize conf)%Z || (maxSize conf =? 0)%Z);
      eexists; (split; [reflexivity|done]).
  - eexists. split; [reflexivity|]. by rewrite <- Hc.
Qed.

Lemma clamp_fields conf :
  uploadDir (clamp conf) = uploadDir conf ∧
  storeSize (clamp conf) = storeSize conf ∧
  uploadEndpoint (clamp conf) = uploadEndpoint conf ∧
  listingEndpoint (clamp conf) = listingEndpoint conf.
Proof. unfold clamp. by case_match. Qed.

Lemma stores_clamp conf : stores (clamp conf) = stores conf.
Proof.
  unfold stores. destruct (clamp_fields conf) as (-> & -> & _). done.
Qed.

Lemma register_handlers_run W conf store h p errs c cfg l srv :
  listingEndpoint conf = "/" →
  shape p errs c cfg [] l srv →
  match register_handlers W conf store h p with
  | Next _ p' =>
      uploadEndpoint conf ≠ "" ∧
      (uploadEndpoint conf ≠ "/" → template_Parse W = None) ∧
      shape p' errs c cfg
        ((uploadEndpoint conf, StripPrefix (uploadEndpoint conf) h) ::
         (if decide (listingEndpoint conf ≠ uploadEndpoint conf)
          then [(listingEndpoint conf,
                 StripPrefix (listingEndpoint conf) (HomepageHandler store))]
          else [])) l srv
  | Halt (Exited code) p' =>
      code = 1%Z ∧ uploadEndpoint conf ≠ "" ∧ uploadEndpoint conf ≠ "/" ∧
      ∃ e, template_Parse W = Some e ∧
           shape p' (errs ++ [fatal "Unable to parse template: %s" e]) c cfg
             [(uploadEndpoint conf, StripPrefix (uploadEndpoint conf) h)] l srv
  | Halt (Panicked _) p' => uploadEndpoint conf = "" ∧ shape p' errs c cfg [] l srv
  | Halt _ _ => False
  end.
Proof.
  intros Hroot (He & Hc & Hcfg & Hmux & Hl & Hsrv). subst errs c cfg l srv.
  unfold register_handlers, bind, http_Handle at 1. rewrite Hmux, Hroot. simpl.
  destruct (decide (uploadEndpoint conf = "")) as [Hempty|Hfull]; [done|].
  destruct (decide ("/" ≠ uploadEndpoint conf)) as [Hne|Heq].
  - unfold homepage_setup, shape.
    destruct (template_Parse W) as [e|];
      cbv [stderr_Fatalf bind modify stop ret http_Handle]; simpl.
    + split; [done|]. split; [done|]. split; [congruence|].
      exists e. by repeat split.
    + destruct (decide ("/" ∈ [uploadEndpoint conf])) as [Hin|_].
      * apply list_elem_of_singleton in Hin. done.
      * by repeat split.
  - unfold ret, shape. apply dec_stable in Heq. by repeat split.
Qed.

Lemma listen_and_serve_run W conf p errs c cfg rts :
  shape p errs c cfg rts None false →
  match listen_and_serve W conf (listen_address conf) p with
  | Halt (Exited code) p' =>
      code = 1%Z ∧
      ((∃ e, listener_error W conf = Some e ∧
             shape p' (errs ++ [fatal "Unable to create listener: %s" e])
                   c cfg rts None false) ∨
       (∃ e, listener_error W conf = None ∧
             http_Serve W (the_listener conf) = Some e ∧
             shape p' (errs ++ [fatal "Unable to serve: %s" e])
                   c cfg rts (Some (the_listener conf)) false))
  | Halt Blocked p' =>
      listener_error W conf = None ∧ http_Serve W (the_listener conf) = None ∧
      shape p' errs c cfg rts (Some (the_listener conf)) true
  | _ => False
  end.
Proof.
  intros (He & Hc & Hcfg & Hmux & Hl & Hsrv). subst errs c cfg rts.
  unfold listen_and_serve, make_listener, listener_error, the_listener,
    timeoutDuration, shape.
  destruct (decide (httpSock conf ≠ "")) as [Hsock|Hsock].
  - destruct (util_NewUnixListener W _ _ _) as [e|] eqn:Hnew;
      cbv [bind stderr_Fatalf modify stop set_listener stdout_Printf ret Serve];
      simpl.
    + split; [done|]. left. exists e. by repeat split.
    + destruct (http_Serve W _) as [e|] eqn:Hserve; simpl.
      * split; [done|]. right. exists e. by repeat split.
      * by repeat split.
  - destruct (util_NewListener W _ _ _) as [e|] eqn:Hnew;
      cbv [bind stderr_Fatalf modify stop set_listener stdout_Printf ret Serve];
      simpl.
    + split; [done|]. left. exists e. by repeat split.
    + destruct (http_Serve W _) as [e|] eqn:Hserve; simpl.
      * split; [done|]. right. exists e. by repeat split.
      * by repeat split.
Qed.

Lemma run_startup W a : startup W a (run W a).
Proof.
  unfold run, Server.
  cbv [bind stdout_Printf modify use_store get NewHandler stderr_Fatalf stop].
  simpl.
  destruct (os_MkdirAll W (opt_dir a) mode_0774) as [e|] eqn:Hmk.
  { by eapply mkdir_failed. }
  match goal with |- context [limit_store ?c ?p] =>
    destruct (limit_store_run c p) as (p3 & -> & Hs); [reflexivity|] end.
  simpl in Hs. destruct Hs as (He & Hc & Hcfg & Hmux & Hl & Hsrv).
  set (conf := clamp (read_conf a)) in *.
  rewrite Hc, <- (stores_clamp (read_conf a)). fold conf.
  set (cfg := tus_Config conf (stores conf)).
  destruct (clamp_fields (read_conf a)) as (Hdir & Hsize & Hup & Hlist).
  fold conf in Hdir, Hsize, Hup, Hlist. simpl in Hdir, Hsize, Hup, Hlist.
  destruct (tusd_NewHandler W cfg) as [e|] eqn:Hnew.
  { eapply handler_failed; [done..|]. fold conf cfg.
    repeat split; simpl; try done. by rewrite He. }
  match goal with |- context [register_handlers W conf ?st ?h ?p] =>
    pose proof (register_handlers_run W conf st h p [] (stores conf) (Some cfg)
                  None false Hlist) as Hreg;
    destruct (register_handlers W conf st h p) as [[] p4|[|code|msg|] p4]
  end; (lapply Hreg; [clear Hreg; intros Hreg|by repeat split]); try done.
  - destruct Hreg as (Hfull & Hparse & Hs4). rewrite Hup in Hfull, Hparse.
    pose proof (listen_and_serve_run W conf p4 _ _ _ _ Hs4) as Hserve.
    destruct (listen_and_serve W conf (listen_address conf) p4)
      as [[] p5|[|code|msg|] p5]; try done.
    + destruct Hserve as (-> & [(e & Herr & Hs5)|(e & Herr & Hgo & Hs5)]).
      * eapply listener_failed; try done. unfold routes, upload_route, listing_route.
        fold conf cfg. rewrite Hdir. exact Hs5.
      * eapply serve_failed; try done. unfold routes, upload_route, listing_route.
        fold conf cfg. rewrite Hdir. exact Hs5.
    + destruct Hserve as (Herr & Hgo & Hs5).
      eapply serving_forever; try done. unfold routes, upload_route, listing_route.
      fold conf cfg. rewrite Hdir. exact Hs5.
  - destruct Hreg as (-> & Hfull & Hne & e & Hparse & Hs4). rewrite Hup in Hfull, Hne.
    by eapply template_failed.
  - destruct Hreg as (Hempty & Hs4). rewrite Hup in Hempty.
    by eapply pattern_rejected.
Qed.

(** ** Start-up: stores, limits, routes and fatal errors *)

Lemma quota_ceiling_stores p a :
  composer p = stores (clamp (read_conf a)) →
  quota_ceiling p =
    if (0 <? opt_store_size a)%Z then Some (opt_store_size a) else None.
Proof.
  intros Hc. unfold quota_ceiling. rewrite Hc, stores_clamp. unfold stores. simpl.
  by destruct (0 <? opt_store_size a)%Z.
Qed.

Lemma startup_composer W a o :
  startup W a o →
  composer (final_state o) = NewStoreComposer ∧
    os_MkdirAll W (opt_dir a) mode_0774 ≠ None
  ∨ composer (final_state o) = stores (clamp (read_conf a)) ∧
    os_MkdirAll W (opt_dir a) mode_0774 = None.
Proof.
  destruct 1 as [e p Hmk Hs|e p conf cfg Hmk Hnew Hs|msg p conf cfg Hmk Hnew Hb Hs
    |e p conf cfg Hmk Hnew Hb Hb' Ht Hs|e p conf cfg Hmk Hnew Hb Ht Hl Hs
    |e p conf cfg Hmk Hnew Hb Ht Hl Hgo Hs|p conf cfg Hmk Hnew Hb Ht Hl Hgo Hs];
    destruct Hs as (_ & Hc & _); simpl; [left|right..]; (split; [done|]);
    congruence.
Qed.

(** C5.  The composer's core is the quota decorator exactly when the
    configured store size is positive (once the upload directory exists,
    before which no store is set up at all), and a decorator that is
    installed always carries that positive size as its ceiling. *)
Theorem quota_decorator_iff_positive_ceiling W a :
  let p := final_state (run W a) in
  (∀ n, quota_ceiling p = Some n → (0 < n)%Z ∧ n = opt_store_size a) ∧
  (os_MkdirAll W (opt_dir a) mode_0774 = None →
     quota_ceiling p =
       if (0 <? opt_store_size a)%Z then Some (opt_store_size a) else None).
Proof.
  intros p. subst p.
  destruct (startup_composer W a _ (run_startup W a)) as [[Hc Hmk]|[Hc Hmk]].
  - split; [|done]. unfold quota_ceiling. by rewrite Hc.
  - rewrite (quota_ceiling_stores _ a Hc). split; [|done].
    destruct (0 <? opt_store_size a)%Z eqn:Hpos; [|done].
    intros n [= <-]. apply Z.ltb_lt in Hpos. done.
Qed.

Lemma startup_config W a o cfg :
  startup W a o → tus_config (final_state o) = Some cfg →
  cfg = tus_Config (clamp (read_conf a)) (stores (clamp (read_conf a))).
Proof.
  destruct 1 as [e p Hmk Hs|e p conf cfg' Hmk Hnew Hs|msg p conf cfg' Hmk Hnew Hb Hs
    |e p conf cfg' Hmk Hnew Hb Hb' Ht Hs|e p conf cfg' Hmk Hnew Hb Ht Hl Hs
    |e p conf cfg' Hmk Hnew Hb Ht Hl Hgo Hs|p conf cfg' Hmk Hnew Hb Ht Hl Hgo Hs];
    destruct Hs as (_ & _ & Hcfg & _); simpl; rewrite Hcfg; try subst conf cfg';
    intros ?; congruence.
Qed.

(** C10.  With a positive store size, the [MaxSize] the tus handler is
    created with never exceeds the store size: a configured maximum of
    zero, or one above the store size, has been replaced by the store
    size; any other maximum is passed on as it is. *)
Theorem max_size_clamped_to_store_size W a cfg :
  (0 < opt_store_size a)%Z →
  tus_config (final_state (run W a)) = Some cfg →
  (MaxSize cfg ≤ opt_store_size a)%Z ∧
  MaxSize cfg =
    if decide (opt_max_size a = 0 ∨ opt_store_size a < opt_max_size a)%Z
    then opt_store_size a else opt_max_size a.
Proof.
  intros Hpos Hcfg. rewrite (startup_config W a _ cfg (run_startup W a) Hcfg).
  unfold clamp. simpl.
  destruct (0 <? opt_store_size a)%Z eqn:H0; [|apply Z.ltb_ge in H0; lia].
  destruct (Z.ltb_spec (opt_store_size a) (opt_max_size a));
    destruct (Z.eqb_spec (opt_max_size a) 0); simpl; case_decide; lia.
Qed.

(** C9.  With the base path [/] the only route ever registered is the
    upload handler at [/]; once the handler has been created, the mux
    holds exactly that one route, and no listing handler. *)
Theorem root_base_path_mounts_upload_only W a :
  opt_base_path a = "/" →
  let p := final_state (run W a) in
  (∀ route, route ∈ mux p →
     ∃ cfg, route = ("/", StripPrefix "/" (TusHandler cfg))) ∧
  (∀ cfg, tus_config p = Some cfg → tusd_NewHandler W cfg = None →
     mux p = [("/", StripPrefix "/" (TusHandler cfg))]).
Proof.
  intros Hroot p. subst p.
  assert (∀ cfg, routes (clamp (read_conf a)) cfg
                 = [("/", StripPrefix "/" (TusHandler cfg))]) as Hroutes.
  { intros cfg. unfold routes, upload_route.
    destruct (clamp_fields (read_conf a)) as (_ & _ & -> & ->). simpl.
    rewrite Hroot. by rewrite decide_False by (by intros []). }
  destruct (run_startup W a)
    as [e p Hmk Hs|e p conf cfg' Hmk Hnew Hs|msg p conf cfg' Hmk Hnew Hb Hs
    |e p conf cfg' Hmk Hnew Hb Hb' Ht Hs|e p conf cfg' Hmk Hnew Hb Ht Hl Hs
    |e p conf cfg' Hmk Hnew Hb Ht Hl Hgo Hs|p conf cfg' Hmk Hnew Hb Ht Hl Hgo Hs];
    destruct Hs as (_ & _ & Hcfg & Hmux & _); simpl; rewrite Hmux, Hcfg;
    try done.
  all: try (split; [by intros route ?%elem_of_nil|]; intros cfg ??; congruence).
  all: subst conf; rewrite Hroutes; (split; [|by intros cfg [= <-] _]).
  all: intros route ->%list_elem_of_singleton; by eexists.
Qed.

(** C6.  Each start-up error that occurs — creating the upload directory,
    creating the tus handler, parsing the listing template, creating the
    listener — ends the process at once with exit status 1 and its message
    on standard error, with nothing listening or serving; and every exit
    of [Server] is of that kind. *)
Theorem startup_errors_exit W a e :
  let conf := clamp (read_conf a) in
  let cfg := tus_Config conf (stores conf) in
  (os_MkdirAll W (opt_dir a) mode_0774 = Some e →
     dies_with (run W a) (fatal "Unable to ensure directory exists: %s" e)) ∧
  (os_MkdirAll W (opt_dir a) mode_0774 = None →
   tusd_NewHandler W cfg = Some e →
     dies_with (run W a) (fatal "Unable to create handler: %s" e)) ∧
  (os_MkdirAll W (opt_dir a) mode_0774 = None →
   tusd_NewHandler W cfg = None →
   opt_base_path a ≠ "" → opt_base_path a ≠ "/" →
   template_Parse W = Some e →
     dies_with (run W a) (fatal "Unable to parse template: %s" e)) ∧
  (os_MkdirAll W (opt_dir a) mode_0774 = None →
   tusd_NewHandler W cfg = None →
   opt_base_path a ≠ "" →
   (opt_base_path a ≠ "/" → template_Parse W = None) →
   listener_error W conf = Some e →
     dies_with (run W a) (fatal "Unable to create listener: %s" e)) ∧
  (∀ code p, run W a = Halt (Exited code) p →
     code = 1%Z ∧ stderr p ≠ [] ∧ serving p = false).
Proof.
  cbv zeta. unfold dies_with.
  destruct (run_startup W a)
    as [e' p Hmk Hs|e' p conf' cfg' Hmk Hnew Hs|msg p conf' cfg' Hmk Hnew Hb Hs
    |e' p conf' cfg' Hmk Hnew Hb Hb' Ht Hs|e' p conf' cfg' Hmk Hnew Hb Ht Hl Hs
    |e' p conf' cfg' Hmk Hnew Hb Ht Hl Hgo Hs|p conf' cfg' Hmk Hnew Hb Ht Hl Hgo Hs];
    try subst conf' cfg';
    destruct Hs as (He & _ & _ & _ & Hlis & Hsrv).
  all: repeat split; intros;
    try match goal with H : Halt _ _ = Halt _ _ |- _ => injection H as ?; subst end;
    try congruence; try (by rewrite He).
  all: try match goal with
           | Ht : _ → template_Parse _ = None, H : template_Parse _ = Some _ |- _ =>
               rewrite Ht in H by done; discriminate H
           end.
  all: exists p; repeat split; try done; rewrite He; congruence.
Qed.

(** ** Links on the page *)

Lemma concat_cons x l : String.concat "" (x :: l) = x +:+ String.concat "" l.
Proof. destruct l; simpl; [by rewrite app_empty_r|done]. Qed.

Lemma contains_concat x (l : list string) :
  x ∈ l → contains x (String.concat "" l).
Proof.
  induction l as [|y l IH]; intros Hin; [by apply elem_of_nil in Hin|].
  rewrite concat_cons. apply elem_of_cons in Hin as [->|Hin].
  - by exists "", (String.concat "" l).
  - destruct (IH Hin) as (pre & post & ->).
    exists (y +:+ pre), post. by rewrite app_assoc'.
Qed.

Lemma contains_listing_page eh et info shown :
  info ∈ shown → contains (listing_item eh et info) (listing_page eh et shown).
Proof.
  intros Hin. unfold listing_page.
  destruct (contains_concat (listing_item eh et info)
              (listing_item eh et <$> shown)) as (pre & post & ->).
  { apply list_elem_of_fmap. by exists info. }
  exists (listing_prefix +:+ pre), (post +:+ listing_suffix).
  by rewrite !app_assoc'.
Qed.

(** C8.  Wherever start-up has mounted the listing handler, it is at the
    root path [/], over the upload directory; a server that got as far as
    serving, with a base path other than [/], has it mounted.  A rendered
    page holds, for every sidecar of the directory, the list item with
    the link of its record: the [href] is the template's fixed address
    followed by the record's identifier, the text is the record's
    [filename], both as escaped by the template engine. *)
Theorem listing_links_every_record W a sorter names GetInfo eh et content :
  (∀ pattern prefix store,
     (pattern, StripPrefix prefix (HomepageHandler store))
       ∈ mux (final_state (run W a)) →
     pattern = "/" ∧ prefix = "/" ∧ store = FileStore (opt_dir a)) ∧
  (∀ p, run W a = Halt Blocked p → opt_base_path a ≠ "/" →
     ("/", StripPrefix "/" (HomepageHandler (FileStore (opt_dir a)))) ∈ mux p) ∧
  (slice_contract sorter →
   serve_listing sorter (Some names) GetInfo eh et = Response 200 content →
   ∀ id, id ≠ "" → sidecar_of id ∈ names →
     ∃ info, GetInfo id = Some info ∧
             contains ("<li><a href=" +:+ Go.dquote
                         +:+ "http://127.0.0.1:1080/files/" +:+ eh (ID info)
                         +:+ Go.dquote +:+ ">" +:+ et (filename_of info)
                         +:+ "</a></li>") content).
Proof.
  assert (∀ conf cfg pattern prefix store,
            (pattern, StripPrefix prefix (HomepageHandler store)) ∈ routes conf cfg →
            pattern = listingEndpoint conf ∧ prefix = listingEndpoint conf ∧
            store = FileStore (uploadDir conf)) as Hroutes.
  { intros conf cfg pattern prefix store. unfold routes, upload_route, listing_route.
    intros Hin. apply elem_of_cons in Hin as [Hin|Hin]; [by inversion Hin|].
    case_decide; [|by apply elem_of_nil in Hin].
    apply list_elem_of_singleton in Hin. by injection Hin as -> -> ->. }
  destruct (clamp_fields (read_conf a)) as (Hdir & _ & Hup & Hlist).
  split; [|split].
  - intros pattern prefix store.
    destruct (run_startup W a)
      as [e p Hmk Hs|e p conf cfg Hmk Hnew Hs|msg p conf cfg Hmk Hnew Hb Hs
      |e p conf cfg Hmk Hnew Hb Hb' Ht Hs|e p conf cfg Hmk Hnew Hb Ht Hl Hs
      |e p conf cfg Hmk Hnew Hb Ht Hl Hgo Hs|p conf cfg Hmk Hnew Hb Ht Hl Hgo Hs];
      destruct Hs as (_ & _ & _ & Hmux & _); simpl; rewrite Hmux; intros Hin.
    1-3: by apply elem_of_nil in Hin.
    1: { apply list_elem_of_singleton in Hin. by inversion Hin. }
    all: apply Hroutes in Hin as (-> & -> & ->); fold conf in Hdir, Hlist;
      by rewrite Hdir, Hlist.
  - intros p Hrun Hbase. pose proof (run_startup W a) as Hs. rewrite Hrun in Hs.
    inversion Hs as [| | | | | |p' conf cfg Hmk Hnew Hb Ht Hl Hgo Hshape]; subst.
    destruct Hshape as (_ & _ & _ & -> & _). unfold routes, listing_route.
    fold conf in Hdir, Hup, Hlist. rewrite Hdir, Hup, Hlist. simpl.
    rewrite decide_True by congruence. apply elem_of_cons. right.
    by apply list_elem_of_singleton.
  - unfold serve_listing. intros [Hperm _] Hok id Hid Hin.
    destruct (homepage_cases sorter names GetInfo eh et)
      as [(infos & Hall & _ & _ & _ & Hr)|[(ok & bad & _ & _ & _ & _ & _ & Hr)
         |(_ & _ & _ & _ & Hr)]]; rewrite Hr in Hok; try done.
    injection Hok as <-.
    destruct (Forall2_lookup_Some GetInfo _ _ id Hall) as (info & Hget & Hinfo).
    { by apply sidecar_in_omap. }
    exists info. split; [done|].
    apply (contains_listing_page eh et info). by rewrite Hperm.
Qed.

(** ** Worked instances *)

(** The example of the spec, for every [sort.Slice] that meets the
    contract: uploads named b.txt, a.txt and c.txt are listed as a.txt,
    b.txt, c.txt. *)
Lemma listing_order_abc sorter eh et :
  slice_contract sorter →
  listed (final_state (homepage sorter (Some demo_dir) demo_store eh et new_request))
    = Some demo_sorted.
Proof.
  intros [Hperm Hsort].
  destruct (homepage_cases sorter demo_dir demo_store eh et)
    as [(infos & Hall & _ & _ & Hl & _)|[(ok & bad & _ & Hbad & Hok & Hpre & _)
       |(Hshort & _)]].
  - rewrite Hl. f_equal.
    assert (infos = [upload "1" "b.txt"; upload "2" "a.txt"; upload "3" "c.txt"])
      as ->.
    { change (omap sidecar_id demo_dir) with ["1"; "2"; "3"] in Hall.
      repeat match goal with H : Forall2 _ _ _ |- _ => inversion H; clear H; subst end.
      repeat match goal with
             | H : demo_store ?i = Some _ |- _ =>
                 let r := eval cbv in (ID <$> demo_store i) in
                 lazymatch r with
                 | Some ?n => first
                     [ change (demo_store i) with (Some (upload n "a.txt")) in H
                     | change (demo_store i) with (Some (upload n "b.txt")) in H
                     | change (demo_store i) with (Some (upload n "c.txt")) in H ]
                 end; injection H as <-
             end.
      reflexivity. }
    apply (StronglySorted_unique_strong by_filename).
    + intros x1 x2 Hx1 Hx2. rewrite Hperm in Hx1.
      unfold by_filename, String.le. unfold demo_sorted in Hx2.
      repeat match goal with
             | H : _ ∈ _ :: _ |- _ => apply elem_of_cons in H as [->|H]
             | H : _ ∈ [] |- _ => by apply elem_of_nil in H
             end; first [ intros _ _; reflexivity | vm_compute; tauto ].
    + apply Sorted_by_filename, Hsort, _.
    + unfold demo_sorted. repeat constructor; vm_compute; exact I.
    + rewrite Hperm. apply Permutation_swap.
  - exfalso. change (omap sidecar_id demo_dir) with ["1"; "2"; "3"] in Hpre.
    assert (bad ∈ ["1"; "2"; "3"]) as Hin.
    { eapply elem_of_prefix; [|exact Hpre]. apply elem_of_app. right.
      by apply list_elem_of_singleton. }
    repeat (apply elem_of_cons in Hin as [->|Hin]; [by vm_compute in Hbad|]).
    by apply elem_of_nil in Hin.
  - exfalso. unfold demo_dir in Hshort.
    repeat (apply Exists_cons in Hshort as [Hshort|Hshort];
            [simpl in Hshort; lia|]).
    by apply Exists_nil in Hshort.
Qed.


(** A directory whose second sidecar, [9.info], does not resolve: status
    500 and no page, although [1.info] did resolve. *)
Lemma failed_lookup_demo :
  demo_store "9" = None ∧
  serve_listing ties_kept (Some ["1.info"; "9.info"]) demo_store id id = error_500 ∧
  listed (final_state
            (homepage ties_kept (Some ["1.info"; "9.info"]) demo_store id id
                      new_request)) = None.
Proof.
  split; [reflexivity|].
  destruct (failed_lookup_fails_listing ties_kept ["1.info"; "9.info"] demo_store
              id id "9" eq_refl) as [Hcall _].
  apply Hcall. apply elem_of_cons. right. apply elem_of_cons. by left.
Defined.

(** Five uploads of which the first, third and fifth are named same.txt:
    the page lists all five, the three same.txt in one run between
    alpha.txt and zeta.txt. *)
Lemma ties_stay_together_demo :
  listed (final_state (homepage ties_kept (Some triplet_dir) triplet_store id id
                                new_request)) = Some triplet_listed ∧
  triplet_listed ≡ₚ triplet_scanned ∧
  filter (λ c, filename_of c = "same.txt") triplet_listed
    ≡ₚ filter (λ c, filename_of c = "same.txt") triplet_scanned ∧
  ∀ a b l1 l2 l3,
    triplet_listed = l1 ++ a :: l2 ++ b :: l3 →
    filename_of a = filename_of b →
    Forall (λ c, filename_of c = filename_of a) l2.
Proof.
  assert (listed (final_state (homepage ties_kept (Some triplet_dir) triplet_store
                                 id id new_request)) = Some triplet_listed)
    as Hshown by (vm_compute; reflexivity).
  split; [exact Hshown|].
  destruct (ties_stay_together ties_kept triplet_dir triplet_store id id
              triplet_scanned
              {| writer := writer new_request;
                 getinfo_calls := ["1"; "2"; "3"; "4"; "5"]; listed := None |}
              triplet_listed)
    as (Hperm & Hfilter & Hrun).
  - exact ties_kept_contract.
  - vm_compute. reflexivity.
  - exact Hshown.
  - split; [exact Hperm|]. split; [exact (Hfilter "same.txt")|exact Hrun].
Defined.

(** Store size 1000, no maximum given: the decorator is installed with
    ceiling 1000. *)
Lemma quota_decorator_demo :
  quota_ceiling (final_state (run calm (demo_args "/files/" 0 1000))) = Some 1000%Z ∧
  quota_ceiling (final_state (run calm (demo_args "/files/" 0 0))) = None.
Proof.
  split.
  - apply (proj2 (quota_decorator_iff_positive_ceiling calm
                    (demo_args "/files/" 0 1000)) eq_refl).
  - apply (proj2 (quota_decorator_iff_positive_ceiling calm
                    (demo_args "/files/" 0 0)) eq_refl).
Defined.

(** Store size 1000 with maximum 0, 5000 and 300: the handler gets 1000,
    1000 and 300. *)
Lemma max_size_clamped_demo :
  ∃ c1 c2 c3,
    tus_config (final_state (run calm (demo_args "/files/" 0 1000))) = Some c1 ∧
    tus_config (final_state (run calm (demo_args "/files/" 5000 1000))) = Some c2 ∧
    tus_config (final_state (run calm (demo_args "/files/" 300 1000))) = Some c3 ∧
    MaxSize c1 = 1000%Z ∧ MaxSize c2 = 1000%Z ∧ MaxSize c3 = 300%Z.
Proof.
  do 3 eexists.
  split; [vm_compute; reflexivity|].
  split; [vm_compute; reflexivity|].
  split; [vm_compute; reflexivity|].
  split; [|split].
  - eapply eq_trans.
    + apply (max_size_clamped_to_store_size calm (demo_args "/files/" 0 1000));
        [simpl; lia|vm_compute; reflexivity].
    + reflexivity.
  - eapply eq_trans.
    + apply (max_size_clamped_to_store_size calm (demo_args "/files/" 5000 1000));
        [simpl; lia|vm_compute; reflexivity].
    + reflexivity.
  - eapply eq_trans.
    + apply (max_size_clamped_to_store_size calm (demo_args "/files/" 300 1000));
        [simpl; lia|vm_compute; reflexivity].
    + reflexivity.
Defined.

(** Base path [/]: one route, the upload handler. *)
Lemma root_base_path_demo :
  opt_base_path (demo_args "/" 0 0) = "/" ∧
  ∃ cfg, mux (final_state (run calm (demo_args "/" 0 0)))
           = [("/", StripPrefix "/" (TusHandler cfg))].
Proof.
  split; [reflexivity|].
  destruct (root_base_path_mounts_upload_only calm (demo_args "/" 0 0) eq_refl)
    as [_ Hmux].
  eexists. apply Hmux; [vm_compute; reflexivity|reflexivity].
Defined.

(** One world per start-up error. *)
Lemma startup_errors_demo :
  dies_with (run broken_disk (demo_args "/files/" 0 0))
            (fatal "Unable to ensure directory exists: %s" "permission denied") ∧
  dies_with (run bad_handler (demo_args "/files/" 0 0))
            (fatal "Unable to create handler: %s" "invalid config") ∧
  dies_with (run bad_template (demo_args "/files/" 0 0))
            (fatal "Unable to parse template: %s" "unexpected EOF") ∧
  dies_with (run port_taken (demo_args "/files/" 0 0))
            (fatal "Unable to create listener: %s" "address already in use").
Proof.
  repeat split.
  - apply (startup_errors_exit broken_disk (demo_args "/files/" 0 0)
             "permission denied"). reflexivity.
  - apply (startup_errors_exit bad_handler (demo_args "/files/" 0 0)
             "invalid config"); reflexivity.
  - apply (startup_errors_exit bad_template (demo_args "/files/" 0 0)
             "unexpected EOF"); try reflexivity; discriminate.
  - apply (startup_errors_exit port_taken (demo_args "/files/" 0 0)
             "address already in use"); try reflexivity; discriminate.
Defined.

(** The page of the three demo uploads, with the template engine's
    escaping left out: the upload stored under 2 and named a.txt is
    linked as the file 2 with the text a.txt. *)
Lemma listing_links_demo :
  ∃ content,
    serve_listing ties_kept (Some demo_dir) demo_store id id = Response 200 content ∧
    contains ("<li><a href=" +:+ Go.dquote +:+ "http://127.0.0.1:1080/files/2"
                +:+ Go.dquote +:+ ">a.txt</a></li>") content.
Proof.
  exists (listing_page id id demo_sorted).
  assert (serve_listing ties_kept (Some demo_dir) demo_store id id
            = Response 200 (listing_page id id demo_sorted)) as Hpage
    by (vm_compute; reflexivity).
  split; [exact Hpage|].
  destruct (listing_links_every_record calm (demo_args "/files/" 0 0) ties_kept
              demo_dir demo_store id id (listing_page id id demo_sorted))
    as (_ & _ & Hlinks).
  destruct (Hlinks ties_kept_contract Hpage "2") as (info & Hget & Hlink).
  - discriminate.
  - unfold demo_dir. repeat (apply elem_of_cons; first [by left|right]).
  - injection Hget as <-. exact Hlink.
Defined.

(** * Further properties of the listing handler *)

Lemma omap_sidecar_sublist (names : list string) :
  sidecar_of <$> omap sidecar_id names `sublist_of` names.
Proof.
  induction names as [|n names IH]; simpl; [constructor|].
  destruct (sidecar_id n) as [id|] eqn:Hid.
  - apply sidecar_id_Some in Hid as [_ ->]. rewrite fmap_cons.
    by apply sublist_skip.
  - by apply sublist_cons.
Qed.

Lemma omap_sidecar_nonempty (names : list string) :
  Forall (λ id, id ≠ "") (omap sidecar_id names).
Proof.
  apply Forall_forall. intros id (n & _ & Hid)%list_elem_of_omap.
  by apply sidecar_id_Some in Hid as [? _].
Qed.

Lemma prefix_sublist_of {A} (l k : list A) : l `prefix_of` k → l `sublist_of` k.
Proof.
  intros [t ->]. induction l as [|x l IH]; simpl.
  - apply sublist_nil_l.
  - by apply sublist_skip.
Qed.

Lemma getinfo_calls_prefix sorter names GetInfo eh et :
  getinfo_calls
    (final_state (homepage sorter (Some names) GetInfo eh et new_request))
    `prefix_of` omap sidecar_id names.
Proof.
  destruct (homepage_cases sorter names GetInfo eh et)
    as [(infos & _ & _ & -> & _)|[(ok & bad & -> & _ & _ & Hpre & _)
       |(_ & _ & Hpre & _)]]; done.
Qed.

(** Which identifiers [store.GetInfo] is asked for.  Appending the suffix
    to the identifiers of the calls, in call order, gives entries of the
    directory in scan order, each entry used at most once; the identifier
    is never empty; and every call but the last one made has returned a
    record: the scan stops at the first failure. *)
Theorem lookups_follow_convention sorter names GetInfo eh et :
  let calls :=
    getinfo_calls
      (final_state (homepage sorter (Some names) GetInfo eh et new_request)) in
  sidecar_of <$> calls `sublist_of` names ∧
  Forall (λ id, id ≠ "") calls ∧
  ∀ i id, calls !! i = Some id → (S i < length calls)%nat → is_Some (GetInfo id).
Proof.
  intros calls. subst calls.
  pose proof (getinfo_calls_prefix sorter names GetInfo eh et) as Hpre.
  split; [|split].
  - etrans; [|apply omap_sidecar_sublist].
    apply fmap_sublist, prefix_sublist_of, Hpre.
  - destruct Hpre as [t Ht]. pose proof (omap_sidecar_nonempty names) as Hne.
    rewrite Ht in Hne. by apply Forall_app in Hne as [? _].
  - intros i id Hi Hlt.
    destruct (homepage_cases sorter names GetInfo eh et)
      as [(infos & Hall & _ & Hc & _)|[(ok & bad & Hc & _ & Hok & _)
         |(_ & Hok & _)]].
    + rewrite Hc in Hi. apply list_elem_of_lookup_2 in Hi.
      destruct (Forall2_lookup_Some _ _ _ _ Hall Hi) as (info & -> & _). by eexists.
    + rewrite Hc in Hi, Hlt. rewrite List.length_app in Hlt. simpl in Hlt.
      rewrite lookup_app_l in Hi by lia.
      rewrite Forall_forall in Hok. eapply Hok, list_elem_of_lookup_2, Hi.
    + rewrite Forall_forall in Hok. eapply Hok, list_elem_of_lookup_2, Hi.
Qed.

(** When the page is served.  The response has status 200 exactly when
    the directory could be read, no entry name is shorter than the five
    bytes of the suffix, and every sidecar of the directory resolves. *)
Theorem listing_rendered_iff sorter ReadDir GetInfo eh et :
  (∃ content, serve_listing sorter ReadDir GetInfo eh et = Response 200 content) ↔
  ∃ names,
    ReadDir = Some names ∧
    Forall (λ n, 5 ≤ String.length n)%nat names ∧
    ∀ id, id ≠ "" → sidecar_of id ∈ names → is_Some (GetInfo id).
Proof.
  unfold serve_listing. destruct ReadDir as [names|].
  - destruct (homepage_cases sorter names GetInfo eh et)
      as [(infos & Hall & Hlong & _ & _ & Hr)|[(ok & bad & _ & Hbad & _ & Hpre & _ & Hr)
         |(Hshort & _ & _ & _ & Hr)]]; rewrite Hr; clear Hr.
    + split; [|by eexists]. intros _. exists names. repeat split; try done.
      intros id Hid Hin.
      destruct (Forall2_lookup_Some GetInfo _ _ id Hall) as (info & -> & _);
        [by apply sidecar_in_omap|by eexists].
    + split; [by intros [c Hc]|]. intros (names' & [= <-] & _ & Hres). exfalso.
      assert (bad ∈ omap sidecar_id names) as Hin.
      { eapply elem_of_prefix; [|exact Hpre]. apply elem_of_app. right.
        by apply list_elem_of_singleton. }
      apply list_elem_of_omap in Hin as (n & Hn & Hid).
      apply sidecar_id_Some in Hid as [Hne ->].
      destruct (Hres bad Hne Hn) as [info Hinfo]. congruence.
    + split; [by intros [c Hc]|]. intros (names' & [= <-] & Hlong & _). exfalso.
      apply Exists_exists in Hshort as (n & Hn & Hlt).
      rewrite Forall_forall in Hlong. specialize (Hlong n Hn). lia.
  - split; [by intros [c Hc]|]. by intros (names & Hnone & _).
Qed.

(** What a client can receive.  The response is a dropped connection, the
    bare status 500 (a newline as body, never a part of the page), or
    status 200 with the complete page of some sequence of records; the
    connection is dropped only over a name shorter than the suffix, and
    an unreadable directory is answered with 500 before any lookup. *)
Theorem listing_response_shapes sorter ReadDir GetInfo eh et :
  match serve_listing sorter ReadDir GetInfo eh et with
  | Aborted =>
      ∃ names, ReadDir = Some names ∧ Exists (λ n, String.length n < 5)%nat names
  | Response status content =>
      (status = 500%Z ∧ content = Go.newline ∧
       (ReadDir = None ∨
        ∃ names id, ReadDir = Some names ∧ sidecar_of id ∈ names ∧
                    GetInfo id = None)) ∨
      (status = 200%Z ∧ ∃ shown, content = listing_page eh et shown)
  end ∧
  (ReadDir = None →
     getinfo_calls (final_state (homepage sorter ReadDir GetInfo eh et new_request))
       = []).
Proof.
  unfold serve_listing. destruct ReadDir as [names|]; [|split; [left|]; by auto].
  split; [|done].
  destruct (homepage_cases sorter names GetInfo eh et)
    as [(infos & _ & _ & _ & _ & Hr)|[(ok & bad & _ & Hbad & _ & Hpre & _ & Hr)
       |(Hshort & _ & _ & _ & Hr)]]; rewrite Hr.
  - right. split; [done|]. by eexists.
  - left. repeat split. right. exists names, bad. repeat split; [|done].
    assert (bad ∈ omap sidecar_id names) as Hin.
    { eapply elem_of_prefix; [|exact Hpre]. apply elem_of_app. right.
      by apply list_elem_of_singleton. }
    apply list_elem_of_omap in Hin as (n & Hn & Hid).
    by apply sidecar_id_Some in Hid as [_ ->].
  - by exists names.
Qed.

Lemma scan_app GetInfo l1 l2 infos r :
  scan GetInfo (l1 ++ l2) infos r =
    match scan GetInfo l1 infos r with
    | Next infos' r' => scan GetInfo l2 infos' r'
    | Halt h r' => Halt h r'
    end.
Proof.
  revert infos r. induction l1 as [|n l1 IH]; intros infos r; [done|].
  rewrite <- app_comm_cons, !scan_cons.
  destruct (scan_entry GetInfo n infos r); [apply IH|done].
Qed.

(** Entries that are not sidecars do not matter.  Taking an entry of at
    least five bytes that does not follow the naming convention (a data
    file, say) out of the directory, or putting one in, changes nothing of
    what the handler does: same lookups, same response. *)
Theorem listing_ignores_other_entries sorter pre n post GetInfo eh et r :
  (5 ≤ String.length n)%nat → ¬ is_sidecar n →
  homepage sorter (Some (pre ++ n :: post)) GetInfo eh et r
    = homepage sorter (Some (pre ++ post)) GetInfo eh et r.
Proof.
  intros Hlong Hno.
  assert (scan GetInfo (pre ++ n :: post) [] r = scan GetInfo (pre ++ post) [] r)
    as Hscan.
  { rewrite !scan_app. destruct (scan GetInfo pre [] r) as [infos r'|]; [|done].
    rewrite scan_cons, scan_entry_long by done.
    apply sidecar_id_None in Hno. by rewrite Hno. }
  unfold homepage, bind. by rewrite Hscan.
Qed.

Lemma listing_ignores_other_entries_demo :
  (5 ≤ String.length "1.bin")%nat ∧ ¬ is_sidecar "1.bin" ∧
  homepage ties_kept (Some (["1.info"] ++ "1.bin" :: ["2.info"])) demo_store id id
           new_request
    = homepage ties_kept (Some (["1.info"] ++ ["2.info"])) demo_store id id
               new_request.
Proof.
  assert (¬ is_sidecar "1.bin") as Hno by (by apply sidecar_id_None).
  split; [simpl; lia|]. split; [exact Hno|].
  apply listing_ignores_other_entries; [simpl; lia|exact Hno].
Defined.

Lemma empty_le s : ("" ≤ s)%string.
Proof. by destruct s. Qed.

Lemma le_empty s : (s ≤ "")%string → s = "".
Proof. intros H. apply (anti_symm String.le); [done|apply empty_le]. Qed.

(** Records without a [filename].  A record whose metadata lacks the key
    compares as the empty string: on the page it comes before every record
    with a non-empty filename, that is, only records with an empty
    filename are listed ahead of it. *)
Theorem missing_filename_listed_first sorter names GetInfo eh et shown l1 a l2 :
  slice_contract sorter →
  listed (final_state (homepage sorter (Some names) GetInfo eh et new_request))
    = Some shown →
  shown = l1 ++ a :: l2 →
  MetaData a !! "filename" = None →
  filename_of a = "" ∧ Forall (λ c, filename_of c = "") l1.
Proof.
  intros [_ Hsort] Hshown -> Hkey.
  assert (filename_of a = "") as Ha.
  { unfold filename_of, Go.map_index. by rewrite Hkey. }
  split; [done|].
  destruct (homepage_cases sorter names GetInfo eh et)
    as [(infos & _ & _ & _ & Hl & _)|[(ok & bad & _ & _ & _ & _ & Hl & _)
       |(_ & _ & _ & Hl & _)]]; rewrite Hl in Hshown; try done.
  injection Hshown as Hshown.
  pose proof (Sorted_by_filename _ (Hsort _ less_filename infos _)) as Hsorted.
  rewrite Hshown in Hsorted. apply Forall_forall. intros c Hc.
  assert (by_filename c a) as Hca.
  { eapply StronglySorted_app_1_elem_of; [done..|]. apply elem_of_cons. by left. }
  unfold by_filename in Hca. rewrite Ha in Hca. by apply le_empty.
Qed.

Lemma missing_filename_demo :
  listed (final_state
            (homepage ties_kept (Some ["1.info"; "7.info"]) anon_store id id
                      new_request))
    = Some ([] ++ nameless "7" :: [upload "1" "b.txt"]) ∧
  MetaData (nameless "7") !! "filename" = None ∧
  filename_of (nameless "7") = "".
Proof.
  assert (listed (final_state
            (homepage ties_kept (Some ["1.info"; "7.info"]) anon_store id id
                      new_request))
            = Some ([] ++ nameless "7" :: [upload "1" "b.txt"])) as Hshown
    by (vm_compute; reflexivity).
  split; [exact Hshown|]. split; [reflexivity|].
  apply (missing_filename_listed_first ties_kept ["1.info"; "7.info"] anon_store
           id id _ [] (nameless "7") [upload "1" "b.txt"] ties_kept_contract Hshown);
    reflexivity.
Defined.

(** A directory without sidecars.  If the directory holds no entry that
    follows the naming convention (and none shorter than the suffix), no
    lookup is made and the response is status 200 with the list left
    empty: the text before the items directly followed by the text after
    them.  The empty directory is the first case of this. *)
Theorem listing_without_sidecars sorter names GetInfo eh et :
  slice_contract sorter →
  Forall (λ n, 5 ≤ String.length n)%nat names →
  Forall (λ n, ¬ is_sidecar n) names →
  serve_listing sorter (Some names) GetInfo eh et
    = Response 200 (listing_prefix +:+ listing_suffix) ∧
  getinfo_calls
    (final_state (homepage sorter (Some names) GetInfo eh et new_request)) = [].
Proof.
  intros [Hperm _] Hlong Hnone.
  assert (omap sidecar_id names = []) as Hids.
  { clear Hlong. induction Hnone as [|n names Hn _ IH]; [done|].
    simpl. apply sidecar_id_None in Hn. by rewrite Hn. }
  unfold serve_listing.
  destruct (homepage_cases sorter names GetInfo eh et)
    as [(infos & Hall & _ & Hc & _ & Hr)|[(ok & bad & _ & _ & _ & Hpre & _)
       |(Hshort & _)]].
  - rewrite Hr, Hc, Hids. split; [|done]. rewrite Hids in Hall.
    apply Forall2_nil_inv_l in Hall as ->.
    specialize (Hperm FileInfo less_filename []).
    apply Permutation_nil_r in Hperm. by rewrite Hperm.
  - exfalso. rewrite Hids in Hpre. apply prefix_nil_inv in Hpre.
    by destruct ok.
  - exfalso. apply Exists_exists in Hshort as (n & Hn & Hlt).
    rewrite Forall_forall in Hlong. specialize (Hlong n Hn). lia.
Qed.

Lemma listing_without_sidecars_demo :
  serve_listing ties_kept (Some []) demo_store id id
    = Response 200 (listing_prefix +:+ listing_suffix) ∧
  serve_listing ties_kept (Some ["1.bin"; "notes.txt"]) demo_store id id
    = Response 200 (listing_prefix +:+ listing_suffix).
Proof.
  split.
  - apply (listing_without_sidecars ties_kept [] demo_store id id
             ties_kept_contract); constructor.
  - apply (listing_without_sidecars ties_kept ["1.bin"; "notes.txt"] demo_store
             id id ties_kept_contract).
    + repeat constructor; simpl; lia.
    + repeat constructor; by apply sidecar_id_None.
Defined.

(** The comparison handed to [sort.Slice].  It is a strict weak ordering,
    as [sort.Slice] requires: no record is less than itself, it is
    transitive, and two records are unordered exactly when their
    [filename] values are equal; a record without the key is never
    preceded by force, as nothing is less than it. *)
Theorem less_filename_order :
  (∀ a, less_filename a a = false) ∧
  (∀ a b c, less_filename a b = true → less_filename b c = true →
            less_filename a c = true) ∧
  (∀ a b, less_filename a b = false ∧ less_filename b a = false
          ↔ filename_of a = filename_of b) ∧
  (∀ a b, MetaData a !! "filename" = None → less_filename b a = false).
Proof.
  unfold less_filename. split; [|split; [|split]].
  - intros a. by apply str_lt_false_le.
  - intros a b c Hab Hbc.
    destruct (Go.str_lt (filename_of a) (filename_of c)) eqn:Hac; [done|].
    apply str_lt_false_le in Hac.
    destruct (total String.le (filename_of b) (filename_of c)) as [Hle|Hle].
    + assert (filename_of b ≤ filename_of a)%string as Hba by by etrans.
      apply str_lt_false_le in Hba. congruence.
    + apply str_lt_false_le in Hle. congruence.
  - intros a b. split.
    + intros [H1 H2]. apply str_lt_false_le in H1, H2.
      by apply (anti_symm String.le).
    + intros ->. split; by apply str_lt_false_le.
  - intros a b Hkey. apply str_lt_false_le.
    unfold filename_of at 1, Go.map_index. rewrite Hkey. apply empty_le.
Qed.

(** * Further properties of start-up *)

(** Start-up up to the creation of the tus handler, when both the
    directory and the handler could be made. *)
Lemma run_registers W a :
  let conf := clamp (read_conf a) in
  let cfg := tus_Config conf (stores conf) in
  os_MkdirAll W (opt_dir a) mode_0774 = None →
  tusd_NewHandler W cfg = None →
  ∃ p, shape p [] (stores conf) (Some cfg) [] None false ∧
       run W a =
         match register_handlers W conf (FileStore (opt_dir a)) (TusHandler cfg) p with
         | Next _ p' => listen_and_serve W conf (listen_address conf) p'
         | Halt h p' => Halt h p'
         end.
Proof.
  intros conf cfg Hmk Hnew. unfold run, Server.
  cbv [bind stdout_Printf modify use_store get NewHandler stderr_Fatalf stop].
  simpl. rewrite Hmk.
  match goal with |- context [limit_store ?c ?p] =>
    destruct (limit_store_run c p) as (p3 & -> & Hs); [reflexivity|] end.
  simpl in Hs. destruct Hs as (He & Hc & Hcfg & Hmux & Hl & Hsrv).
  rewrite Hc, <- (stores_clamp (read_conf a)). fold conf. fold cfg.
  rewrite Hnew. eexists. split; [|reflexivity].
  by repeat split.
Qed.

(** Once the options are read, [Server] does not come back to its caller
    (lines 72 to 148).  It ends in [os.Exit(1)] after exactly one line on
    the [stderr] logger; or in a panic raised by [http.Handle], with
    nothing written to that logger and no route or listener (the Go
    run-time then reports the panic and ends the process; that is outside
    the function); or it stays in [http.Serve], with a listener and
    nothing on the [stderr] logger.  It never returns. *)
Theorem startup_never_returns W a :
  match run W a with
  | Next _ _ | Halt Returned _ => False
  | Halt (Exited code) p =>
      code = 1%Z ∧ length (stderr p) = 1%nat ∧ serving p = false
  | Halt (Panicked _) p => stderr p = [] ∧ mux p = [] ∧ listener p = None
  | Halt Blocked p => stderr p = [] ∧ is_Some (listener p) ∧ serving p = true
  end.
Proof.
  destruct (run_startup W a)
    as [e p Hmk Hs|e p conf cfg Hmk Hnew Hs|msg p conf cfg Hmk Hnew Hb Hs
    |e p conf cfg Hmk Hnew Hb Hb' Ht Hs|e p conf cfg Hmk Hnew Hb Ht Hl Hs
    |e p conf cfg Hmk Hnew Hb Ht Hl Hgo Hs|p conf cfg Hmk Hnew Hb Ht Hl Hgo Hs];
    destruct Hs as (He & _ & _ & Hmux & Hlis & Hsrv);
    rewrite ?He, ?Hlis; by repeat split.
Qed.

(** The one way start-up panics.  [Server] panics exactly when the
    directory and the handler could be made and the base path is empty:
    [http.Handle] rejects the empty pattern.  The message is the one of
    [http.Handle]; nothing was logged as an error and nothing is
    registered or listening. *)
Theorem startup_panics_iff_empty_base_path W a :
  let conf := clamp (read_conf a) in
  let cfg := tus_Config conf (stores conf) in
  ((∃ msg p, run W a = Halt (Panicked msg) p) ↔
     os_MkdirAll W (opt_dir a) mode_0774 = None ∧
     tusd_NewHandler W cfg = None ∧ opt_base_path a = "") ∧
  (∀ msg p, run W a = Halt (Panicked msg) p →
     msg = "http: invalid pattern" ∧ stderr p = [] ∧ mux p = [] ∧
     listener p = None).
Proof.
  intros conf cfg.
  assert (os_MkdirAll W (opt_dir a) mode_0774 = None →
          tusd_NewHandler W cfg = None → opt_base_path a = "" →
          ∃ p, run W a = Halt (Panicked "http: invalid pattern") p ∧
               stderr p = [] ∧ mux p = [] ∧ listener p = None) as Hpanic.
  { intros Hmk Hnew Hb.
    destruct (run_registers W a Hmk Hnew) as (p & Hs & ->). fold conf cfg.
    destruct Hs as (He & _ & _ & Hmux & Hlis & _).
    unfold register_handlers, bind, http_Handle at 1.
    destruct (clamp_fields (read_conf a)) as (_ & _ & Hup & _).
    fold conf in Hup. simpl in Hup. rewrite Hup, Hb. simpl. by exists p. }
  assert (∀ msg p, run W a = Halt (Panicked msg) p →
            os_MkdirAll W (opt_dir a) mode_0774 = None ∧
            tusd_NewHandler W cfg = None ∧ opt_base_path a = "") as Hwhen.
  { intros msg p Hrun. pose proof (run_startup W a) as Hs. rewrite Hrun in Hs.
    inversion Hs; subst. done. }
  split.
  - split.
    + intros (msg & p & Hrun). by eapply Hwhen.
    + intros (Hmk & Hnew & Hb).
      destruct (Hpanic Hmk Hnew Hb) as (p & Hrun & _). by eexists _, _.
  - intros msg p Hrun. destruct (Hwhen msg p Hrun) as (Hmk & Hnew & Hb).
    destruct (Hpanic Hmk Hnew Hb) as (p' & Hrun' & Hrest).
    rewrite Hrun in Hrun'. by injection Hrun' as -> ->.
Qed.

(** The routes of a serving process.  With a base path other than [/] the
    mux holds two routes, in this order: the upload handler at the base
    path and the listing at [/], each behind [http.StripPrefix] of its own
    pattern.  However start-up ends, no pattern is registered twice and
    the first route, if any, is the upload handler's. *)
Theorem routes_of_a_serving_process W a :
  let conf := clamp (read_conf a) in
  let cfg := tus_Config conf (stores conf) in
  let p := final_state (run W a) in
  (serving p = true → opt_base_path a ≠ "/" →
     mux p = [ (opt_base_path a, StripPrefix (opt_base_path a) (TusHandler cfg));
               ("/", StripPrefix "/" (HomepageHandler (FileStore (opt_dir a)))) ]) ∧
  NoDup (mux p).*1 ∧
  (mux p = [] ∨
   ∃ rest, mux p
     = (opt_base_path a, StripPrefix (opt_base_path a) (TusHandler cfg)) :: rest).
Proof.
  intros conf0 cfg0 p. subst p.
  assert (routes conf0 cfg0 =
            (opt_base_path a, StripPrefix (opt_base_path a) (TusHandler cfg0)) ::
            (if decide ("/" ≠ opt_base_path a)
             then [("/", StripPrefix "/" (HomepageHandler (FileStore (opt_dir a))))]
             else [])) as Hroutes.
  { unfold routes, upload_route, listing_route.
    destruct (clamp_fields (read_conf a)) as (Hdir & _ & Hup & Hlist).
    fold conf0 in Hdir, Hup, Hlist. by rewrite Hdir, Hup, Hlist. }
  assert (upload_route conf0 cfg0 =
            (opt_base_path a, StripPrefix (opt_base_path a) (TusHandler cfg0)))
    as Hupload.
  { unfold upload_route. destruct (clamp_fields (read_conf a)) as (_ & _ & Hup & _).
    fold conf0 in Hup. by rewrite Hup. }
  assert (NoDup (routes conf0 cfg0).*1) as Hnodup.
  { rewrite Hroutes. case_decide; simpl.
    - apply NoDup_cons. split; [|apply NoDup_singleton].
      intros ?%list_elem_of_singleton. congruence.
    - apply NoDup_singleton. }
  destruct (run_startup W a)
    as [e p Hmk Hs|e p conf cfg Hmk Hnew Hs|msg p conf cfg Hmk Hnew Hb Hs
    |e p conf cfg Hmk Hnew Hb Hb' Ht Hs|e p conf cfg Hmk Hnew Hb Ht Hl Hs
    |e p conf cfg Hmk Hnew Hb Ht Hl Hgo Hs|p conf cfg Hmk Hnew Hb Ht Hl Hgo Hs];
    try subst conf cfg; fold conf0 cfg0 in Hs;
    destruct Hs as (_ & _ & _ & Hmux & _ & Hsrv); simpl; rewrite Hmux, Hsrv.
  all: try (split; [done|]; split; [apply NoDup_nil_2|by left]).
  - rewrite Hupload. split; [done|]. split; [apply NoDup_singleton|].
    right. by exists [].
  - split; [done|]. split; [done|]. right. rewrite Hroutes. by eexists.
  - split; [done|]. split; [done|]. right. rewrite Hroutes. by eexists.
  - split; [|split; [done|]].
    + intros _ Hbase. rewrite Hroutes. rewrite decide_True by congruence. done.
    + right. rewrite Hroutes. by eexists.
Qed.

Lemma clamp_net_fields conf :
  httpHost (clamp conf) = httpHost conf ∧ httpPort (clamp conf) = httpPort conf ∧
  httpSock (clamp conf) = httpSock conf ∧ timeout (clamp conf) = timeout conf ∧
  isBehindProxy (clamp conf) = isBehindProxy conf.
Proof. unfold clamp. by case_match. Qed.

(** Where the server listens.  A listener that start-up has created is a
    Unix-socket listener at the configured socket path whenever that
    option is non-empty (host and port are then not used), and otherwise a
    TCP listener at host, a colon, port; its read and its write timeout
    are the same duration, the configured milliseconds times a million
    in [int64] arithmetic. *)
Theorem listener_follows_socket_option W a l :
  listener (final_state (run W a)) = Some l →
  let d := Go.wrap64 (opt_timeout a * 1000000) in
  l = if decide (opt_unix_sock a ≠ "")
      then UnixListener (opt_unix_sock a) d d
      else TCPListener (opt_host a +:+ ":" +:+ opt_port a) d d.
Proof.
  intros Hl d.
  assert (the_listener (clamp (read_conf a)) =
            if decide (opt_unix_sock a ≠ "")
            then UnixListener (opt_unix_sock a) d d
            else TCPListener (opt_host a +:+ ":" +:+ opt_port a) d d) as Hthe.
  { unfold the_listener, listen_address, timeoutDuration.
    destruct (clamp_net_fields (read_conf a)) as (-> & -> & -> & -> & _). simpl.
    by case_decide. }
  destruct (run_startup W a)
    as [e p Hmk Hs|e p conf cfg Hmk Hnew Hs|msg p conf cfg Hmk Hnew Hb Hs
    |e p conf cfg Hmk Hnew Hb Hb' Ht Hs|e p conf cfg Hmk Hnew Hb Ht Hle Hs
    |e p conf cfg Hmk Hnew Hb Ht Hle Hgo Hs|p conf cfg Hmk Hnew Hb Ht Hle Hgo Hs];
    try subst conf cfg; destruct Hs as (_ & _ & _ & _ & Hlis & _);
    simpl in Hl; rewrite Hlis in Hl; try done.
  all: injection Hl as <-; exact Hthe.
Qed.

Lemma listener_follows_socket_option_demo :
  listener (final_state (run calm (demo_args "/files/" 0 0)))
    = Some (TCPListener "0.0.0.0:1080" 30000000000 30000000000) ∧
  TCPListener "0.0.0.0:1080" 30000000000 30000000000
    = TCPListener ("0.0.0.0" +:+ ":" +:+ "1080")
        (Go.wrap64 (30000 * 1000000)) (Go.wrap64 (30000 * 1000000)) ∧
  listener (final_state (run calm (sock_args "/tmp/tusc.sock")))
    = Some (UnixListener "/tmp/tusc.sock" 30000000000 30000000000) ∧
  UnixListener "/tmp/tusc.sock" 30000000000 30000000000
    = UnixListener "/tmp/tusc.sock"
        (Go.wrap64 (30000 * 1000000)) (Go.wrap64 (30000 * 1000000)).
Proof.
  assert (listener (final_state (run calm (demo_args "/files/" 0 0)))
            = Some (TCPListener "0.0.0.0:1080" 30000000000 30000000000)) as Htcp
    by (vm_compute; reflexivity).
  assert (listener (final_state (run calm (sock_args "/tmp/tusc.sock")))
            = Some (UnixListener "/tmp/tusc.sock" 30000000000 30000000000)) as Hunix
    by (vm_compute; reflexivity).
  split; [exact Htcp|]. split.
  { exact (listener_follows_socket_option calm (demo_args "/files/" 0 0) _ Htcp). }
  split; [exact Hunix|].
  exact (listener_follows_socket_option calm (sock_args "/tmp/tusc.sock") _ Hunix).
Defined.

(** The timeout in nanoseconds.  For a timeout that is an [int64], the
    duration handed to the listener is an [int64] again, and it is the
    timeout times a million exactly when the timeout lies between
    -9223372036854 and 9223372036854 milliseconds; beyond that the
    multiplication wraps around. *)
Theorem timeout_in_nanoseconds conf :
  (- 2 ^ 63 ≤ timeout conf < 2 ^ 63)%Z →
  (- 2 ^ 63 ≤ timeoutDuration conf < 2 ^ 63)%Z ∧
  (timeoutDuration conf = timeout conf * 1000000
   ↔ -9223372036854 ≤ timeout conf ≤ 9223372036854)%Z.
Proof.
  unfold timeoutDuration, Go.wrap64.
  change (2 ^ 63)%Z with 9223372036854775808%Z.
  change (2 ^ 64)%Z with 18446744073709551616%Z.
  intros Hrange.
  pose proof (Z.mod_pos_bound (timeout conf * 1000000 + 9223372036854775808)
                18446744073709551616 eq_refl) as Hmod.
  pose proof (Z.div_mod (timeout conf * 1000000 + 9223372036854775808)
                18446744073709551616) as Hdiv.
  split; [lia|]. split; intros H; lia.
Qed.

Lemma timeout_in_nanoseconds_demo :
  timeoutDuration (read_conf (demo_args "/files/" 0 0)) = 30000000000%Z ∧
  timeoutDuration
    (with_maxSize
       {| httpHost := ""; httpPort := ""; httpSock := ""; maxSize := 0;
          uploadDir := ""; storeSize := 0; listingEndpoint := "/";
          uploadEndpoint := "/files/"; timeout := 9223372036855;
          isBehindProxy := false |} 0)
    ≠ (9223372036855 * 1000000)%Z.
Proof.
  split.
  - apply (timeout_in_nanoseconds (read_conf (demo_args "/files/" 0 0)));
      simpl; lia.
  - intros H.
    apply (timeout_in_nanoseconds
             (with_maxSize
                {| httpHost := ""; httpPort := ""; httpSock := ""; maxSize := 0;
                   uploadDir := ""; storeSize := 0; listingEndpoint := "/";
                   uploadEndpoint := "/files/"; timeout := 9223372036855;
                   isBehindProxy := false |} 0)) in H; simpl in *; lia.
Defined.

(** The maximum size without a quota.  With a store size of zero or less
    the configured maximum is passed to the tus handler as it is; and the
    handler is given the maximum 0, which lifts the limit, only when no
    quota is configured and the maximum was left at 0. *)
Theorem max_size_without_quota W a cfg :
  tus_config (final_state (run W a)) = Some cfg →
  ((opt_store_size a ≤ 0)%Z → MaxSize cfg = opt_max_size a) ∧
  (MaxSize cfg = 0%Z ↔ (opt_store_size a ≤ 0)%Z ∧ opt_max_size a = 0%Z).
Proof.
  intros Hcfg. rewrite (startup_config W a _ cfg (run_startup W a) Hcfg).
  unfold clamp. simpl.
  destruct (Z.ltb_spec 0 (opt_store_size a));
    destruct (Z.ltb_spec (opt_store_size a) (opt_max_size a));
    destruct (Z.eqb_spec (opt_max_size a) 0); simpl; lia.
Qed.

Lemma max_size_without_quota_demo :
  ∃ c1 c2,
    tus_config (final_state (run calm (demo_args "/files/" 0 0))) = Some c1 ∧
    tus_config (final_state (run calm (demo_args "/files/" 0 1000))) = Some c2 ∧
    MaxSize c1 = 0%Z ∧ MaxSize c2 ≠ 0%Z.
Proof.
  do 2 eexists.
  split; [vm_compute; reflexivity|]. split; [vm_compute; reflexivity|].
  split.
  - apply (max_size_without_quota calm (demo_args "/files/" 0 0));
      [vm_compute; reflexivity|simpl; lia].
  - intros H.
    apply (max_size_without_quota calm (demo_args "/files/" 0 1000)) in H;
      [simpl in H; lia|vm_compute; reflexivity].
Defined.

(** What the tus handler is made of.  The configuration it is created
    with carries the base path and the proxy flag of the command line and
    has every notification switched off; its composer is the one the
    process holds, with one store as core and as terminater: the file
    store of the upload directory, inside the quota decorator (as its core
    and its terminater alike) when the store size is positive. *)
Theorem handler_configuration W a cfg :
  tus_config (final_state (run W a)) = Some cfg →
  let fs := FileStore (opt_dir a) in
  BasePath cfg = opt_base_path a ∧
  RespectForwardedHeaders cfg = opt_behind_proxy a ∧
  (NotifyCompleteUploads cfg || NotifyTerminatedUploads cfg ||
   NotifyUploadProgress cfg || NotifyCreatedUploads cfg) = false ∧
  StoreComposer_of cfg = composer (final_state (run W a)) ∧
  Terminater (StoreComposer_of cfg) = Core (StoreComposer_of cfg) ∧
  Core (StoreComposer_of cfg)
    = Some (if (0 <? opt_store_size a)%Z
            then LimitedStore (opt_store_size a) (Some fs) (Some fs)
            else fs).
Proof.
  intros Hcfg fs.
  assert (composer (final_state (run W a)) = stores (clamp (read_conf a))) as Hc.
  { destruct (run_startup W a)
      as [e p Hmk Hs|e p conf cfg' Hmk Hnew Hs|msg p conf cfg' Hmk Hnew Hb Hs
      |e p conf cfg' Hmk Hnew Hb Hb' Ht Hs|e p conf cfg' Hmk Hnew Hb Ht Hl Hs
      |e p conf cfg' Hmk Hnew Hb Ht Hl Hgo Hs|p conf cfg' Hmk Hnew Hb Ht Hl Hgo Hs];
      destruct Hs as (_ & Hc & Hcfg' & _); simpl in *; [congruence|done..]. }
  rewrite Hc, (startup_config W a _ cfg (run_startup W a) Hcfg).
  rewrite stores_clamp. unfold stores.
  destruct (clamp_fields (read_conf a)) as (_ & _ & Hup & _).
  destruct (clamp_net_fields (read_conf a)) as (_ & _ & _ & _ & Hproxy).
  simpl. rewrite Hup, Hproxy. simpl.
  by destruct (0 <? opt_store_size a)%Z.
Qed.

Lemma handler_configuration_demo :
  ∃ cfg,
    tus_config (final_state (run calm (demo_args "/files/" 0 1000))) = Some cfg ∧
    BasePath cfg = "/files/" ∧
    Core (StoreComposer_of cfg)
      = Some (LimitedStore 1000 (Some (FileStore "./data"))
                           (Some (FileStore "./data"))).
Proof.
  destruct (tus_config (final_state (run calm (demo_args "/files/" 0 1000))))
    as [cfg|] eqn:Hcfg; [|by vm_compute in Hcfg].
  exists cfg. split; [reflexivity|].
  destruct (handler_configuration calm (demo_args "/files/" 0 1000) cfg Hcfg)
    as (Hbase & _ & _ & _ & _ & Hcore).
  split; [exact Hbase|exact Hcore].
Defined.

(** * The page and the order of the directory *)

Lemma Forall2_lookup_omap (GetInfo : string → option FileInfo) ids infos :
  Forall2 (λ id info, GetInfo id = Some info) ids infos →
  omap GetInfo ids = infos.
Proof.
  induction 1 as [|id info ids infos Hget _ IH]; [done|].
  cbn. rewrite Hget. cbn. by f_equal.
Qed.

(** Unique filenames make the page independent of the scan order.  Two
    directories with the same entries in a different order, both rendered,
    show the same sequence of records, provided no two records on the page
    share a filename; so the order in which the file system enumerates the
    directory can only show where filenames repeat. *)
Theorem listing_independent_of_scan_order
    sorter names1 names2 GetInfo eh et shown1 shown2 :
  slice_contract sorter →
  names1 ≡ₚ names2 →
  listed (final_state (homepage sorter (Some names1) GetInfo eh et new_request))
    = Some shown1 →
  listed (final_state (homepage sorter (Some names2) GetInfo eh et new_request))
    = Some shown2 →
  (∀ x y, x ∈ shown1 → y ∈ shown1 → filename_of x = filename_of y → x = y) →
  shown1 = shown2 ∧
  serve_listing sorter (Some names1) GetInfo eh et
    = serve_listing sorter (Some names2) GetInfo eh et.
Proof.
  intros [Hperm Hsort] Hnames H1 H2 Huniq. unfold serve_listing.
  destruct (homepage_cases sorter names1 GetInfo eh et)
    as [(infos1 & Hall1 & _ & _ & Hl1 & Hr1)|[(? & ? & _ & _ & _ & _ & Hl1 & _)
       |(_ & _ & _ & Hl1 & _)]]; rewrite Hl1 in H1; try done.
  destruct (homepage_cases sorter names2 GetInfo eh et)
    as [(infos2 & Hall2 & _ & _ & Hl2 & Hr2)|[(? & ? & _ & _ & _ & _ & Hl2 & _)
       |(_ & _ & _ & Hl2 & _)]]; rewrite Hl2 in H2; try done.
  injection H1 as H1. injection H2 as H2.
  assert (shown1 = shown2) as Heq.
  { apply (StronglySorted_unique_strong by_filename).
    - intros x y Hx Hy Hxy Hyx. apply Huniq; [done| |].
      + assert (shown2 ≡ₚ shown1) as Hp; [|by rewrite <- Hp].
        rewrite <- H1, <- H2, !Hperm.
        rewrite <- (Forall2_lookup_omap _ _ _ Hall1).
        rewrite <- (Forall2_lookup_omap _ _ _ Hall2).
        by rewrite Hnames.
      + by apply (anti_symm String.le).
    - rewrite <- H1. apply Sorted_by_filename, Hsort, _.
    - rewrite <- H2. apply Sorted_by_filename, Hsort, _.
    - rewrite <- H1, <- H2, !Hperm.
      rewrite <- (Forall2_lookup_omap _ _ _ Hall1).
      rewrite <- (Forall2_lookup_omap _ _ _ Hall2).
      by rewrite Hnames. }
  split; [done|]. by rewrite Hr1, Hr2, H1, H2, Heq.
Qed.

Lemma listing_independent_of_scan_order_demo :
  serve_listing ties_kept (Some ["1.info"; "2.info"; "3.info"]) demo_store id id
    = serve_listing ties_kept (Some ["3.info"; "1.info"; "2.info"]) demo_store id id.
Proof.
  apply (listing_independent_of_scan_order ties_kept
           ["1.info"; "2.info"; "3.info"] ["3.info"; "1.info"; "2.info"]
           demo_store id id demo_sorted demo_sorted ties_kept_contract).
  - change ["1.info"; "2.info"; "3.info"]
      with ((["1.info"; "2.info"] ++ ["3.info"]) : list string).
    change ["3.info"; "1.info"; "2.info"]
      with ((["3.info"] ++ ["1.info"; "2.info"]) : list string).
    apply Permutation_app_comm.
  - vm_compute. reflexivity.
  - vm_compute. reflexivity.
  - intros x y Hx Hy. unfold demo_sorted in Hx, Hy.
    repeat match goal with
           | H : _ ∈ _ :: _ |- _ => apply elem_of_cons in H as [->|H]
           | H : _ ∈ [] |- _ => by apply elem_of_nil in H
           end; first [ intros _; reflexivity | vm_compute; discriminate ].
Defined.
